(** * Minimal Expense Tracker: the view-model of [src/app/page.tsx]

    A shallow embedding of the [Home] component's logic: the storage load
    and persist effects, the [filteredExpenses] and [totals] memos, and the
    [handleSubmit] and [handleDelete] handlers, followed by the properties
    proved of them.

    Conventions of the embedding.
    - A JavaScript string is a [string]; each character stands for one
      UTF-16 code unit, restricted to the range 0..255. Module
      [JsString16] has the string functions on 16-bit code units, and
      [JsString] is proved to be their restriction.
    - A JavaScript number is a binary64 value, as [spec_float] with
      precision 53 and maximal exponent 1024.
    - Exceptions are explicit: a computation that may throw returns a
      [completion].
    - Functions of the host that the page calls but does not define
      ([JSON.parse], [JSON.stringify], [Date.parse], [localeCompare],
      [Number.prototype.toString]) are parameters; of [localeCompare] it
      is assumed that it is a consistent comparison function, nothing
      more. *)

From Stdlib Require Import ZArith List String Ascii Bool Lia.
From Stdlib Require Import Permutation Sorted QArith Qround.
From Stdlib Require Import SpecFloat.
From Stdlib Require OrderedTypeEx.
Import ListNotations.

Local Open Scope string_scope.
Local Open Scope list_scope.
Local Open Scope Z_scope.

(* ================================================================== *)
(** * Part I. The embedding *)
(* ================================================================== *)

(** ** Exceptions *)

Inductive completion (A : Type) : Type :=
| Normal (a : A)
| Throw (reason : string).
Arguments Normal {A} a.
Arguments Throw {A} reason.

Definition bind {A B} (c : completion A) (k : A -> completion B) : completion B :=
  match c with
  | Normal a => k a
  | Throw r => Throw r
  end.

Notation "x <- c ;; k" := (bind c (fun x => k))
  (at level 61, c at next level, right associativity).

(** [try { body } catch { }]: the handler swallows the exception and the
    state the body was going to replace stays as it was. *)
Definition try_catch {A} (body : completion A) (fallback : A) : A :=
  match body with
  | Normal a => a
  | Throw _ => fallback
  end.

(** ** Strings *)

(** The strings whose code units are all below U+0100, held as [string].
    On these the host's white space is TAB, LF, VT, FF, CR, SP and NBSP,
    and its lower-casing acts on each code unit by itself and stays
    below U+0100. *)
Module JsString.

Definition code (c : ascii) : N := N_of_ascii c.

(** WhiteSpace and LineTerminator code units below 256: TAB, LF, VT, FF,
    CR, SP and NBSP. *)
Definition isWhiteSpace (c : ascii) : bool :=
  let n := code c in
  (((9 <=? n) && (n <=? 13)) || (n =? 32) || (n =? 160))%N.

Fixpoint trimStart (s : string) : string :=
  match s with
  | EmptyString => EmptyString
  | String c s' => if isWhiteSpace c then trimStart s' else s
  end.

Fixpoint trimEnd (s : string) : string :=
  match s with
  | EmptyString => EmptyString
  | String c s' =>
      match trimEnd s' with
      | EmptyString => if isWhiteSpace c then EmptyString else String c EmptyString
      | t => String c t
      end
  end.

Definition trim (s : string) : string := trimEnd (trimStart s).

(** Lower-casing of one code unit: A..Z, and the Latin-1 capitals
    0xC0..0xDE except the multiplication sign 0xD7. *)
Definition lowerChar (c : ascii) : ascii :=
  let n := code c in
  if (((65 <=? n) && (n <=? 90)) ||
      ((192 <=? n) && (n <=? 222) && negb (n =? 215)))%N
  then ascii_of_N (n + 32) else c.

Fixpoint toLowerCase (s : string) : string :=
  match s with
  | EmptyString => EmptyString
  | String c s' => String (lowerChar c) (toLowerCase s')
  end.

Definition startsWith (s searchString : string) : bool :=
  String.prefix searchString s.

Fixpoint includes (s searchString : string) : bool :=
  startsWith s searchString ||
  match s with
  | EmptyString => false
  | String _ s' => includes s' searchString
  end.

(** [s.slice(from)] and [s.slice(0, to)] for non-negative indices. *)
Fixpoint sliceFrom (from : nat) (s : string) : string :=
  match from, s with
  | O, _ => s
  | S n, EmptyString => EmptyString
  | S n, String _ s' => sliceFrom n s'
  end.

Fixpoint sliceTo (to : nat) (s : string) : string :=
  match to, s with
  | O, _ => EmptyString
  | S n, EmptyString => EmptyString
  | S n, String c s' => String c (sliceTo n s')
  end.

(** Truthiness of a string: every string but the empty one. *)
Definition truthy (s : string) : bool :=
  match s with EmptyString => false | _ => true end.

End JsString.

(** ** Strings of 16-bit code units *)

(** A JS string is a sequence of 16-bit code units. The development
    works on the strings whose code units are all below U+0100, held as
    [string] (module [JsString]), on which the host's functions are the
    ones written there. This module writes the same functions on 16-bit
    code units. Lower-casing is Unicode's default case conversion, with
    the context rule of the capital sigma (Final_Sigma in
    SpecialCasing.txt); it is given on Latin-1 and on the Greek letters
    U+0391..U+03A9 and U+03B1..U+03C9, and is [None] on a text that
    holds another code unit. *)
Module JsString16.

Definition text : Type := list N.

Definition ofString (s : string) : text :=
  map N_of_ascii (list_ascii_of_string s).

(** WhiteSpace and LineTerminator. *)
Definition isWhiteSpace (n : N) : bool :=
  (((9 <=? n) && (n <=? 13)) || (n =? 32) || (n =? 160) || (n =? 0x1680) ||
   ((0x2000 <=? n) && (n <=? 0x200A)) || (n =? 0x2028) || (n =? 0x2029) ||
   (n =? 0x202F) || (n =? 0x205F) || (n =? 0x3000) || (n =? 0xFEFF))%N.

Fixpoint trimStart (s : text) : text :=
  match s with
  | [] => []
  | c :: s' => if isWhiteSpace c then trimStart s' else s
  end.

Fixpoint trimEnd (s : text) : text :=
  match s with
  | [] => []
  | c :: s' =>
      match trimEnd s' with
      | [] => if isWhiteSpace c then [] else [c]
      | t => c :: t
      end
  end.

Definition trim (s : text) : text := trimEnd (trimStart s).

Definition isGreekCapital (n : N) : bool :=
  ((0x391 <=? n) && (n <=? 0x3A9) && negb (n =? 0x3A2))%N.

Definition isGreekSmall (n : N) : bool :=
  ((0x3B1 <=? n) && (n <=? 0x3C9))%N.

(** The properties Cased and Case_Ignorable of DerivedCoreProperties.txt
    on those code units. *)
Definition isCased (n : N) : bool :=
  (((0x41 <=? n) && (n <=? 0x5A)) || ((0x61 <=? n) && (n <=? 0x7A)) ||
   (n =? 0xAA) || (n =? 0xB5) || (n =? 0xBA) ||
   ((0xC0 <=? n) && (n <=? 0xD6)) || ((0xD8 <=? n) && (n <=? 0xF6)) ||
   ((0xF8 <=? n) && (n <=? 0xFF)))%N ||
  isGreekCapital n || isGreekSmall n.

Definition isCaseIgnorable (n : N) : bool :=
  ((n =? 0x27) || (n =? 0x2E) || (n =? 0x3A) || (n =? 0x5E) || (n =? 0x60) ||
   (n =? 0xA8) || (n =? 0xAD) || (n =? 0xAF) || (n =? 0xB4) || (n =? 0xB7) ||
   (n =? 0xB8))%N.

(** Past the case-ignorable code units at its head, [l] goes on with a
    cased letter. *)
Fixpoint reachesCased (l : text) : bool :=
  match l with
  | [] => false
  | c :: rest => if isCaseIgnorable c then reachesCased rest else isCased c
  end.

(** Final_Sigma: a cased letter stands before, case-ignorable code units
    aside, and none stands after; [before] is what precedes, nearest
    code unit first. *)
Definition finalSigma (before after : text) : bool :=
  reachesCased before && negb (reachesCased after).

Definition lowerUnit (before : text) (c : N) (after : text) : option N :=
  if (c <? 0x100)%N then
    Some (if (((0x41 <=? c) && (c <=? 0x5A)) ||
              ((0xC0 <=? c) && (c <=? 0xDE) && negb (c =? 0xD7)))%N
          then (c + 32)%N else c)
  else if (c =? 0x3A3)%N then
    Some (if finalSigma before after then 0x3C2%N else 0x3C3%N)
  else if isGreekCapital c then Some (c + 32)%N
  else if isGreekSmall c then Some c
  else None.

Fixpoint lowerFrom (before s : text) : option text :=
  match s with
  | [] => Some []
  | c :: rest =>
      match lowerUnit before c rest, lowerFrom (c :: before) rest with
      | Some c', Some rest' => Some (c' :: rest')
      | _, _ => None
      end
  end.

Definition toLowerCase (s : text) : option text := lowerFrom [] s.

Fixpoint startsWith (s searchString : text) : bool :=
  match searchString, s with
  | [], _ => true
  | _ :: _, [] => false
  | a :: p, b :: s' => (a =? b)%N && startsWith s' p
  end.

Fixpoint includes (s searchString : text) : bool :=
  startsWith s searchString ||
  match s with
  | [] => false
  | _ :: s' => includes s' searchString
  end.

End JsString16.

(** ** Numbers *)

Module JsNumber.

Definition number : Type := spec_float.

Definition prec : Z := 53.
Definition emax : Z := 1024.

Definition NaN : number := S754_nan.
Definition zero : number := S754_zero false.
Definition Infinity : number := S754_infinity false.

Definition add : number -> number -> number := SFadd prec emax.
Definition sub : number -> number -> number := SFsub prec emax.
Definition div : number -> number -> number := SFdiv prec emax.

Definition ltb : number -> number -> bool := SFltb.
Definition leb : number -> number -> bool := SFleb.

Definition isNaN (x : number) : bool :=
  match x with S754_nan => true | _ => false end.

Definition isFinite (x : number) : bool :=
  match x with
  | S754_zero _ | S754_finite _ _ _ => true
  | S754_infinity _ | S754_nan => false
  end.

(** ToBoolean: false exactly on +0, -0 and NaN. *)
Definition truthy (x : number) : bool :=
  match x with
  | S754_zero _ | S754_nan => false
  | S754_infinity _ | S754_finite _ _ _ => true
  end.

(** The double nearest to an integer. *)
Definition ofZ (z : Z) : number := binary_normalize prec emax z 0 false.

(** The double nearest to [(-1)^neg * m * 10^e10], ties to even. An
    integer is rounded directly; a proper fraction is the correctly
    rounded quotient of two integers. *)
Definition ofDecimal (neg : bool) (m : Z) (e10 : Z) : number :=
  match m with
  | Zpos p =>
      if 0 <=? e10
      then binary_normalize prec emax (cond_Zopp neg (m * 10 ^ e10)) 0 neg
      else
        SFdiv prec emax (S754_finite neg p 0)
                        (S754_finite false (Z.to_pos (10 ^ (- e10))) 0)
  | _ => S754_zero neg
  end.

(** ToIntegerOrInfinity on a finite number: truncation toward zero. *)
Definition truncate (x : number) : option Z :=
  match x with
  | S754_zero _ => Some 0
  | S754_finite s m e =>
      Some (cond_Zopp s (if 0 <=? e then Zpos m * 2 ^ e else Zpos m / 2 ^ (- e)))
  | S754_infinity _ | S754_nan => None
  end.

(** The exact rational value of a finite number (0 elsewhere). *)
Definition value (x : number) : Q :=
  match x with
  | S754_finite s m e =>
      if 0 <=? e then inject_Z (cond_Zopp s (Zpos m * 2 ^ e))
      else Qmake (cond_Zopp s (Zpos m)) (Z.to_pos (2 ^ (- e)))
  | _ => 0%Q
  end.

(** A [spec_float] that is a binary64 datum. *)
Definition isDouble (x : number) : bool := valid_binary prec emax x.

(** *** Reading a numeric literal *)

Definition digitValue (base : Z) (c : ascii) : option Z :=
  let n := Z.of_N (N_of_ascii c) in
  let v :=
    if (48 <=? n) && (n <=? 57) then n - 48
    else if (97 <=? n) && (n <=? 122) then n - 87
    else if (65 <=? n) && (n <=? 90) then n - 55
    else 36 in
  if v <? base then Some v else None.

(** Reads the longest run of digits in [base]: the value accumulated on
    [acc], the number of digits read, and the rest of the string. *)
Fixpoint scanDigits (base : Z) (s : string) (acc : Z) (count : Z)
  : Z * Z * string :=
  match s with
  | EmptyString => (acc, count, s)
  | String c s' =>
      match digitValue base c with
      | Some d => scanDigits base s' (acc * base + d) (count + 1)
      | None => (acc, count, s)
      end
  end.

(** ExponentPart, read only when complete: [e] or [E], an optional sign
    and at least one digit. *)
Definition scanExponent (s : string) : Z * string :=
  match s with
  | String c s1 =>
      if (Ascii.eqb c "e" || Ascii.eqb c "E")%char then
        let '(neg, s2) :=
          match s1 with
          | String "-"%char r => (true, r)
          | String "+"%char r => (false, r)
          | _ => (false, s1)
          end in
        let '(v, n, rest) := scanDigits 10 s2 0 0 in
        if 0 <? n then (cond_Zopp neg v, rest) else (0, s)
      else (0, s)
  | EmptyString => (0, s)
  end.

(** The longest prefix that is a StrDecimalLiteral, with its value and
    the text after it; [None] when no prefix is one. *)
Definition scanStrDecimalLiteral (s : string) : option (number * string) :=
  let '(neg, s1) :=
    match s with
    | String "-"%char r => (true, r)
    | String "+"%char r => (false, r)
    | _ => (false, s)
    end in
  if String.prefix "Infinity" s1
  then Some (S754_infinity neg, JsString.sliceFrom 8 s1)
  else
    let '(iv, ic, s2) := scanDigits 10 s1 0 0 in
    let '(mv, fc, s3) :=
      match s2 with
      | String "."%char r =>
          let '(v, n, r') := scanDigits 10 r iv 0 in
          if (0 <? ic) || (0 <? n) then (v, n, r') else (iv, 0, s2)
      | _ => (iv, 0, s2)
      end in
    if (0 <? ic) || (0 <? fc) then
      let '(ev, s4) := scanExponent s3 in
      Some (ofDecimal neg mv (ev - fc), s4)
    else None.

(** [Number.parseFloat]: leading white space is skipped, the longest
    literal prefix is read, anything after it is ignored. *)
Definition parseFloat (s : string) : number :=
  match scanStrDecimalLiteral (JsString.trimStart s) with
  | Some (v, _) => v
  | None => NaN
  end.

Definition scanRadixLiteral (s : string) : option number :=
  match s with
  | String "0"%char (String c r) =>
      let base :=
        if (Ascii.eqb c "x" || Ascii.eqb c "X")%char then 16
        else if (Ascii.eqb c "o" || Ascii.eqb c "O")%char then 8
        else if (Ascii.eqb c "b" || Ascii.eqb c "B")%char then 2
        else 0 in
      if base =? 0 then None
      else
        match scanDigits base r 0 0 with
        | (v, n, EmptyString) => if 0 <? n then Some (ofZ v) else None
        | _ => None
        end
  | _ => None
  end.

(** [Number(s)] on a string (StringToNumber): white space is trimmed on
    both sides, the empty string is +0, and the whole of what is left
    must be one literal. *)
Definition ofString (s : string) : number :=
  let t := JsString.trim s in
  match t with
  | EmptyString => zero
  | _ =>
      match scanRadixLiteral t with
      | Some v => v
      | None =>
          match scanStrDecimalLiteral t with
          | Some (v, EmptyString) => v
          | _ => NaN
          end
      end
  end.

(** *** [toFixed(2)] *)

(** The integer [n] for which [n / 100 - x] is as close to zero as
    possible, the larger [n] when two are equally close; [x] is a
    non-negative finite number given by mantissa and exponent. *)
Definition fixedDigits2 (m : Z) (e : Z) : Z :=
  if 0 <=? e then 100 * m * 2 ^ e
  else
    let d := 2 ^ (- e) in
    let q := (100 * m) / d in
    let r := (100 * m) mod d in
    if d <=? 2 * r then q + 1 else q.

End JsNumber.

(** ** Dates *)

(** The part of [Date] the page uses: [new Date(year, month, 0).getDate()].
    Time values are integers of milliseconds; [None] is the time value NaN
    of an invalid date. The constructor and [getDate] both work in local
    time, so the civil date put in is the one read back; the host zone is
    taken to be UTC. *)
Module JsDate.
Import JsNumber.

Definition msPerDay : Z := 86400000.

Definition Day (t : Z) : Z := t / msPerDay.

Definition DaysInYear (y : Z) : Z :=
  if negb (y mod 4 =? 0) then 365
  else if negb (y mod 100 =? 0) then 366
  else if negb (y mod 400 =? 0) then 365
  else 366.

Definition DayFromYear (y : Z) : Z :=
  365 * (y - 1970) + (y - 1969) / 4 - (y - 1901) / 100 + (y - 1601) / 400.

(** The largest year whose first day is not after day [d]: an estimate
    from the mean length of a year, off by at most one. *)
Definition YearFromDay (d : Z) : Z :=
  let y := 1970 + (d * 400) / 146097 in
  if DayFromYear (y + 1) <=? d then y + 1
  else if DayFromYear y <=? d then y
  else y - 1.

Definition InLeapYear (d : Z) : Z :=
  if DaysInYear (YearFromDay d) =? 366 then 1 else 0.

Definition DayWithinYear (d : Z) : Z := d - DayFromYear (YearFromDay d).

(** Day number within the year on which month [m] (0..11) starts. *)
Definition monthStart (leap : Z) (m : Z) : Z :=
  match m with
  | 0 => 0
  | 1 => 31
  | 2 => 59 + leap
  | 3 => 90 + leap
  | 4 => 120 + leap
  | 5 => 151 + leap
  | 6 => 181 + leap
  | 7 => 212 + leap
  | 8 => 243 + leap
  | 9 => 273 + leap
  | 10 => 304 + leap
  | 11 => 334 + leap
  | _ => 365 + leap
  end.

Definition MonthFromDay (d : Z) : Z :=
  let w := DayWithinYear d in
  let leap := InLeapYear d in
  if w <? 31 then 0
  else if w <? 59 + leap then 1
  else if w <? 90 + leap then 2
  else if w <? 120 + leap then 3
  else if w <? 151 + leap then 4
  else if w <? 181 + leap then 5
  else if w <? 212 + leap then 6
  else if w <? 243 + leap then 7
  else if w <? 273 + leap then 8
  else if w <? 304 + leap then 9
  else if w <? 334 + leap then 10
  else 11.

Definition DateFromDay (d : Z) : Z :=
  DayWithinYear d - monthStart (InLeapYear d) (MonthFromDay d) + 1.

Definition DateFromTime (t : Z) : Z := DateFromDay (Day t).

(** MakeFullYear: years 0..99 mean 1900..1999. *)
Definition MakeFullYear (year : number) : option Z :=
  match truncate year with
  | Some yi => if (0 <=? yi) && (yi <=? 99) then Some (1900 + yi) else Some yi
  | None => None
  end.

(** MakeDay on integral arguments: the day number of the first of month
    [m mod 12] in year [y + m / 12], moved by [dt - 1] days. *)
Definition MakeDay (y m dt : Z) : Z :=
  let ym := y + m / 12 in
  let mn := m mod 12 in
  let leap := if DaysInYear ym =? 366 then 1 else 0 in
  DayFromYear ym + monthStart leap mn + dt - 1.

Definition TimeClip (t : Z) : option Z :=
  if Z.abs t <=? 8640000000000000 then Some t else None.

(** [new Date(year, month, date)] with the time of day left at 0. *)
Definition construct (year month date : number) : option Z :=
  match MakeFullYear year, truncate month, truncate date with
  | Some y, Some m, Some dt => TimeClip (MakeDay y m dt * msPerDay)
  | _, _, _ => None
  end.

Definition getDate (tv : option Z) : number :=
  match tv with
  | Some t => ofZ (DateFromTime t)
  | None => NaN
  end.

End JsDate.

(** ** Sorting *)

(** [Array.prototype.sort] with a comparator. The comparator's result is
    read by its sign, NaN counting as zero (SortCompare). The sort is
    stable; under a consistent comparator its result is the same for every
    stable algorithm, and insertion is the one written here. *)
Section ArraySort.
Context {A : Type}.
Variable comparefn : A -> A -> comparison.

Fixpoint insertSorted (x : A) (l : list A) : list A :=
  match l with
  | [] => [x]
  | y :: l' =>
      match comparefn x y with
      | Gt => y :: insertSorted x l'
      | _ => x :: l
      end
  end.

Definition Array_sort (l : list A) : list A :=
  fold_right insertSorted [] l.
End ArraySort.

(** The sign of a comparator's numeric result. *)
Definition SortCompare (v : JsNumber.number) : comparison :=
  match v with
  | S754_nan | S754_zero _ => Eq
  | S754_infinity s | S754_finite s _ _ => if s then Lt else Gt
  end.

(** [String.prototype.localeCompare] is the host's collation: a negative,
    zero or positive integer. It is taken to be a consistent comparison
    function on strings, as ECMA-262 asks of it: the strings that compare
    as zero form classes, and the classes are totally ordered. Two
    different strings may compare as zero. *)
Class Collation : Type := {
  localeCompare : string -> string -> Z;
  localeCompare_refl : forall a, localeCompare a a = 0;
  localeCompare_swap : forall a b, localeCompare a b < 0 <-> 0 < localeCompare b a;
  localeCompare_trans : forall a b c,
      localeCompare a b < 0 -> localeCompare b c < 0 -> localeCompare a c < 0;
  localeCompare_equiv : forall a b c,
      localeCompare a b = 0 -> localeCompare b c = 0 -> localeCompare a c = 0
}.

Definition signOf (v : Z) : comparison := Z.compare v 0.

(** ** Values read back from storage *)

Import JsNumber.

#[local] Set Warnings "-register-all".

Inductive json : Type :=
| JNull
| JBool (b : bool)
| JNum (x : number)
| JStr (s : string)
| JArr (items : list json)
| JObj (props : list (string * json)).

Fixpoint lookup {V : Type} (k : string) (props : list (string * V)) : option V :=
  match props with
  | [] => None
  | (k', v) :: rest => if String.eqb k' k then Some v else lookup k rest
  end.

(** [item.k] for the field names the page reads ([id], [description],
    [category], [amount], [date]): reading a property of [null] throws, an
    object gives its own property, and no other value has one of these
    names. [None] is [undefined]. *)
Definition getField (item : json) (k : string) : completion (option json) :=
  match item with
  | JNull => Throw "TypeError: Cannot read properties of null"
  | JObj props => Normal (lookup k props)
  | JBool _ | JNum _ | JStr _ | JArr _ => Normal None
  end.

Definition typeOf (v : option json) : string :=
  match v with
  | None => "undefined"
  | Some JNull => "object"
  | Some (JBool _) => "boolean"
  | Some (JNum _) => "number"
  | Some (JStr _) => "string"
  | Some (JArr _) => "object"
  | Some (JObj _) => "object"
  end.

(** [Array.prototype.filter] with a callback that may throw. *)
Fixpoint filterC {A : Type} (f : A -> completion bool) (l : list A)
  : completion (list A) :=
  match l with
  | [] => Normal []
  | x :: l' =>
      keep <- f x ;;
      rest <- filterC f l' ;;
      Normal (if keep then x :: rest else rest)
  end.

(** ** Records and state *)

Record Expense : Type := {
  id : string;
  description : string;
  category : string;
  amount : number;
  date : string;
  note : option string;
  createdAt : string
}.

Module Draft.
Record DraftExpense : Type := {
  description : string;
  category : string;
  amount : string;
  date : string;
  note : string
}.
End Draft.
Abbreviation DraftExpense := Draft.DraftExpense.

Record State : Type := {
  expenses : list Expense;
  draft : DraftExpense;
  month : string;
  categoryFilter : string;
  searchTerm : string;
  error : option string
}.

Definition STORAGE_KEY : string := "agentic-expenses:v1".

(** The three messages [handleSubmit] can set. *)
Definition EmptyDescription : string :=
  "Add a short description to remember the expense.".
Definition InvalidAmount : string := "Amount should be a positive number.".
Definition InvalidDate : string := "Choose a valid date.".

(** ** The load and persist effects *)

(** The guard of the load effect's [filter]. *)
Definition isExpense (item : json) : completion bool :=
  f_id <- getField item "id" ;;
  if negb (typeOf f_id =? "string")%string then Normal false else
  f_description <- getField item "description" ;;
  if negb (typeOf f_description =? "string")%string then Normal false else
  f_category <- getField item "category" ;;
  if negb (typeOf f_category =? "string")%string then Normal false else
  f_amount <- getField item "amount" ;;
  if negb (typeOf f_amount =? "number")%string then Normal false else
  f_date <- getField item "date" ;;
  Normal (typeOf f_date =? "string")%string.

(** [item.date] of an entry that passed the guard. *)
Definition dateOf (item : json) : string :=
  match item with
  | JObj props =>
      match lookup "date" props with
      | Some (JStr s) => s
      | _ => EmptyString
      end
  | _ => EmptyString
  end.

(** The object a record is in memory; an absent note is no property. *)
Definition toObject (e : Expense) : json :=
  JObj ([ ("id", JStr e.(id));
          ("description", JStr e.(description));
          ("category", JStr e.(category));
          ("amount", JNum e.(amount));
          ("date", JStr e.(date)) ]
        ++ match e.(note) with
           | Some n => [ ("note", JStr n) ]
           | None => []
           end
        ++ [ ("createdAt", JStr e.(createdAt)) ]).

(** What a value is after [JSON.stringify] and [JSON.parse]: JSON has no
    NaN and no infinities, which are written as [null], and no negative
    zero, which is written as [0]. *)
Fixpoint jsonify (v : json) : json :=
  match v with
  | JNum x =>
      match x with
      | S754_nan | S754_infinity _ => JNull
      | S754_zero _ => JNum zero
      | S754_finite _ _ _ => v
      end
  | JArr items => JArr (map jsonify items)
  | JObj props => JObj (map (fun kv => (fst kv, jsonify (snd kv))) props)
  | JNull | JBool _ | JStr _ => v
  end.

Section Persistence.
Context {collation : Collation}.

(** [JSON.parse] and [JSON.stringify] of the host. *)
Variable JSON_parse : string -> completion json.
Variable JSON_stringify : json -> string.

(** The body of the [try] block: [None] when it returns without calling
    [setExpenses], [Some l] when it calls [setExpenses(l)]. *)
Definition loadBody (raw : option string) : completion (option (list json)) :=
  match raw with
  | None => Normal None
  | Some r =>
      if negb (JsString.truthy r) then Normal None
      else
        parsed <- JSON_parse r ;;
        match parsed with
        | JArr items =>
            kept <- filterC isExpense items ;;
            Normal (Some (Array_sort
                            (fun a b => signOf (localeCompare (dateOf b) (dateOf a)))
                            kept))
        | _ => Normal None
        end
  end.

(** The load effect as a transformer of the [expenses] state. *)
Definition loadEffect (raw : option string) (current : list json)
  : completion (list json) :=
  Normal (match try_catch (loadBody raw) None with
          | Some l => l
          | None => current
          end).

(** The store after mounting: [expenses] starts as the empty array. *)
Definition load (raw : option string) : list json :=
  try_catch (loadEffect raw []) [].

(** The persist effect: what is written under [STORAGE_KEY]. *)
Definition save (expenses : list Expense) : string :=
  JSON_stringify (JArr (map toObject expenses)).

End Persistence.

(** ** The filtered timeline *)

Section View.
Context {collation : Collation}.

(** The callback of the search filter: the description matches, or the
    note does; [expense.note?.…] is [undefined], which is falsy, when
    there is no note. *)
Definition matchesSearch (searchTerm : string) (expense : Expense) : bool :=
  let needle := JsString.toLowerCase (JsString.trim searchTerm) in
  JsString.includes (JsString.toLowerCase expense.(description)) needle ||
  match expense.(note) with
  | Some n => JsString.includes (JsString.toLowerCase n) needle
  | None => false
  end.

(** The comparator of the timeline's sort. *)
Definition timelineOrder (a b : Expense) : comparison :=
  if (a.(date) =? b.(date))%string
  then signOf (localeCompare b.(createdAt) a.(createdAt))
  else signOf (localeCompare b.(date) a.(date)).

(** The three filters of the [filteredExpenses] memo, then its sort. *)
Definition byMonth (expenses : list Expense) (month : string) : list Expense :=
  filter (fun expense => JsString.startsWith expense.(date) month) expenses.

Definition byCategory (expenses : list Expense) (month categoryFilter : string)
  : list Expense :=
  if (categoryFilter =? "all")%string then byMonth expenses month
  else filter (fun expense => (expense.(category) =? categoryFilter)%string)
              (byMonth expenses month).

Definition bySearch
  (expenses : list Expense) (month categoryFilter searchTerm : string)
  : list Expense :=
  if JsString.truthy (JsString.trim searchTerm)
  then filter (matchesSearch searchTerm) (byCategory expenses month categoryFilter)
  else byCategory expenses month categoryFilter.

Definition filteredExpenses
  (expenses : list Expense) (month categoryFilter searchTerm : string)
  : list Expense :=
  Array_sort timelineOrder (bySearch expenses month categoryFilter searchTerm).

End View.

(** The callback of the search filter on 16-bit texts: [None] where a
    text holds a code unit whose lower-casing is not given. *)
Definition matchesSearch16
  (searchTerm description : JsString16.text) (note : option JsString16.text)
  : option bool :=
  match JsString16.toLowerCase (JsString16.trim searchTerm),
        JsString16.toLowerCase description with
  | Some needle, Some d =>
      if JsString16.includes d needle then Some true
      else match note with
           | Some n =>
               match JsString16.toLowerCase n with
               | Some ln => Some (JsString16.includes ln needle)
               | None => None
               end
           | None => Some false
           end
  | _, _ => None
  end.

(** ** Totals *)

Module JsObject.

(** A plain object used as a map from category to sum: its own
    properties in the order they were created. The names that [{}]
    inherits from [Object.prototype] are not modelled; the properties
    proved of the aggregation exclude them as category names. *)
Definition object : Type := list (string * number).

Definition prototypeNames : list string :=
  [ "constructor"; "hasOwnProperty"; "isPrototypeOf"; "propertyIsEnumerable";
    "toLocaleString"; "toString"; "valueOf"; "__proto__";
    "__defineGetter__"; "__defineSetter__"; "__lookupGetter__";
    "__lookupSetter__" ].

(** [o[k] = v]: an existing property keeps its place. *)
Fixpoint set (o : object) (k : string) (v : number) : object :=
  match o with
  | [] => [(k, v)]
  | (k', v') :: rest =>
      if String.eqb k' k then (k', v) :: rest else (k', v') :: set rest k v
  end.

(** The array index a property name denotes, if it is one: the canonical
    decimal numeral of an integer from 0 to 2^32 - 2. *)
Definition arrayIndex (k : string) : option Z :=
  match k with
  | EmptyString => None
  | String c rest =>
      match scanDigits 10 k 0 0 with
      | (v, _, EmptyString) =>
          if (negb (Ascii.eqb c "0") || String.eqb rest EmptyString)
             && (v <=? 4294967294)
          then Some v else None
      | _ => None
      end
  end.

Definition isIndexKey (kv : string * number) : bool :=
  match arrayIndex (fst kv) with Some _ => true | None => false end.

Definition indexOrder (a b : string * number) : comparison :=
  match arrayIndex (fst a), arrayIndex (fst b) with
  | Some i, Some j => Z.compare i j
  | _, _ => Eq
  end.

(** [Object.entries]: array-index names first, in ascending numeric
    order, then the other names in creation order. *)
Definition entries (o : object) : list (string * number) :=
  Array_sort indexOrder (filter isIndexKey o)
  ++ filter (fun kv => negb (isIndexKey kv)) o.

End JsObject.

Module TopCategory.
Record t : Type := { name : string; amount : number }.
End TopCategory.

Record Totals : Type := {
  total : number;
  dailyAverage : number;
  categories : JsObject.object;
  topCategory : option TopCategory.t
}.

Definition sumAmounts (filtered : list Expense) : number :=
  fold_left (fun sum expense => add sum expense.(amount)) filtered zero.

Definition sumByCategory (filtered : list Expense) : JsObject.object :=
  fold_left
    (fun acc expense =>
       JsObject.set acc expense.(category)
         (add (match lookup expense.(category) acc with
               | Some v => v
               | None => zero
               end)
              expense.(amount)))
    filtered [].

Definition daysInMonth (month : string) : number :=
  if JsString.truthy month
  then JsDate.getDate
         (JsDate.construct (ofString (JsString.sliceTo 4 month))
                           (ofString (JsString.sliceFrom 5 month))
                           zero)
  else ofZ 30.

(** The comparator of the sort that picks the top category. *)
Definition bySumDescending (a b : string * number) : comparison :=
  SortCompare (sub (snd b) (snd a)).

Definition totals (filtered : list Expense) (month : string) : Totals :=
  let total := sumAmounts filtered in
  let byCategory := sumByCategory filtered in
  let days := daysInMonth month in
  let dailyAverage := if truthy days then div total days else total in
  let top := hd_error (Array_sort bySumDescending (JsObject.entries byCategory)) in
  {| total := total;
     dailyAverage := dailyAverage;
     categories := byCategory;
     topCategory :=
       match top with
       | Some kv => Some {| TopCategory.name := fst kv; TopCategory.amount := snd kv |}
       | None => None
       end |}.

(** ** The handlers *)

Module NumberFormat.

Definition digitChar (d : Z) : ascii := ascii_of_N (Z.to_N (48 + d)).

(** The decimal digits of [n], most significant first, put before
    [acc]; [fuel] bounds the number of digits. *)
Fixpoint digitsBefore (fuel : nat) (n : Z) (acc : string) : string :=
  match fuel with
  | O => acc
  | S fuel' =>
      let acc' := String (digitChar (n mod 10)) acc in
      if n <? 10 then acc' else digitsBefore fuel' (n / 10) acc'
  end.

Definition digits (n : Z) : string :=
  digitsBefore (S (Z.to_nat (Z.log2 n))) n EmptyString.

(** [n / 100] written with two decimals, [0 <= n]: the digits of [n],
    at least three of them, with the point before the last two. *)
Definition fixed2 (n : Z) : string :=
  (digits (n / 100) ++
   String "." (String (digitChar (n / 10 mod 10))
                      (String (digitChar (n mod 10)) EmptyString)))%string.

Section ToFixed.
(** [Number.prototype.toString] of the host, which [toFixed] falls
    back on for values of magnitude 10^21 and above. *)
Variable Number_toString : number -> string.

(** [x.toFixed(2)]. *)
Definition toFixed2 (x : number) : string :=
  match x with
  | S754_nan | S754_infinity _ => Number_toString x
  | S754_zero _ => "0.00"
  | S754_finite s m e =>
      if leb (ofZ (10 ^ 21)) (SFabs x) then Number_toString x
      else ((if s then "-" else "") ++ fixed2 (fixedDigits2 (Zpos m) e))%string
  end.
End ToFixed.

End NumberFormat.

Section Handlers.
(** [Date.parse] and [Number.prototype.toString] of the host. *)
Variable Date_parse : string -> number.
Variable Number_toString : number -> string.

Definition withError (st : State) (message : string) : State :=
  {| expenses := st.(expenses);
     draft := st.(draft);
     month := st.(month);
     categoryFilter := st.(categoryFilter);
     searchTerm := st.(searchTerm);
     error := Some message |}.

(** [handleSubmit]; [uuid] is what [crypto.randomUUID()] returns and
    [now] what [new Date().toISOString()] returns at the call. *)
Definition handleSubmit (uuid now : string) (st : State) : State :=
  let trimmedDescription := JsString.trim st.(draft).(Draft.description) in
  if negb (JsString.truthy trimmedDescription) then withError st EmptyDescription
  else
    let amountValue := parseFloat st.(draft).(Draft.amount) in
    if negb (isFinite amountValue) || leb amountValue zero
    then withError st InvalidAmount
    else
      let isoDate := st.(draft).(Draft.date) in
      if negb (JsString.truthy isoDate) || isNaN (Date_parse isoDate)
      then withError st InvalidDate
      else
        let payload :=
          {| id := uuid;
             description := trimmedDescription;
             category :=
               if JsString.truthy st.(draft).(Draft.category)
               then st.(draft).(Draft.category) else "Other";
             amount := ofString (NumberFormat.toFixed2 Number_toString amountValue);
             date := isoDate;
             note :=
               (let n := JsString.trim st.(draft).(Draft.note) in
                if JsString.truthy n then Some n else None);
             createdAt := now |} in
        {| expenses := payload :: st.(expenses);
           draft :=
             {| Draft.description := "";
                Draft.category := st.(draft).(Draft.category);
                Draft.amount := "";
                Draft.date := isoDate;
                Draft.note := "" |};
           month := st.(month);
           categoryFilter := st.(categoryFilter);
           searchTerm := st.(searchTerm);
           error := None |}.

End Handlers.

Definition handleDelete (target : string) (st : State) : State :=
  {| expenses :=
       filter (fun expense => negb (expense.(id) =? target)%string) st.(expenses);
     draft := st.(draft);
     month := st.(month);
     categoryFilter := st.(categoryFilter);
     searchTerm := st.(searchTerm);
     error := st.(error) |}.

(** ** The rest of the view-model *)

(** The timeline memo as a function of the state it depends on. *)
Definition timeline {collation : Collation} (st : State) : list Expense :=
  filteredExpenses st.(expenses) st.(month) st.(categoryFilter) st.(searchTerm).

(** [resetFilters]; [todayIso] is the memoised
    [new Date().toISOString().slice(0, 10)] of the first render. *)
Definition resetFilters (todayIso : string) (st : State) : State :=
  {| expenses := st.(expenses);
     draft := st.(draft);
     month := JsString.sliceTo 7 todayIso;
     categoryFilter := "all";
     searchTerm := "";
     error := st.(error) |}.

(** The rows of the category split, before each is given its share:
    [Object.entries(totals.categories).sort((a, b) => b[1] - a[1])]. *)
Definition categoryRows (t : Totals) : list (string * number) :=
  Array_sort bySumDescending (JsObject.entries t.(categories)).

(* ================================================================== *)
(** * Part II. Properties *)
(* ================================================================== *)

(** ** Facts about [Array_sort] *)

Section ArraySortFacts.
Context {A : Type}.
Variable comparefn : A -> A -> comparison.

(** [x] may stand before [y]. *)
Definition notAfter (x y : A) : Prop := comparefn x y <> Gt.

Lemma insertSorted_perm (x : A) (l : list A) :
  Permutation (insertSorted comparefn x l) (x :: l).
Proof.
  induction l as [|y l IH]; simpl.
  - apply Permutation_refl.
  - destruct (comparefn x y).
    + apply Permutation_refl.
    + apply Permutation_refl.
    + eapply perm_trans; [apply perm_skip, IH | apply perm_swap].
Qed.

Lemma Array_sort_perm (l : list A) : Permutation (Array_sort comparefn l) l.
Proof.
  induction l as [|x l IH]; simpl.
  - apply perm_nil.
  - eapply perm_trans; [apply insertSorted_perm | apply perm_skip, IH].
Qed.

Lemma Array_sort_In (l : list A) (x : A) :
  In x (Array_sort comparefn l) <-> In x l.
Proof.
  split; apply Permutation_in;
    [apply Array_sort_perm | apply Permutation_sym, Array_sort_perm].
Qed.

Lemma Array_sort_nil_iff (l : list A) : Array_sort comparefn l = [] <-> l = [].
Proof.
  split; intro H.
  - apply Permutation_nil. rewrite <- H. apply Array_sort_perm.
  - subst l. reflexivity.
Qed.

(** Stability: elements that the comparator never puts strictly out of
    order among themselves keep their relative order. *)
Lemma insertSorted_filter (p : A -> bool) (x : A) (l : list A) :
  (forall y, p x = true -> p y = true -> comparefn x y <> Gt) ->
  filter p (insertSorted comparefn x l) = filter p (x :: l).
Proof.
  intros Hp. induction l as [|y l IH]; simpl; [reflexivity|].
  destruct (comparefn x y) eqn:Hxy; try reflexivity.
  simpl in *. rewrite IH.
  destruct (p x) eqn:Hx, (p y) eqn:Hy; try reflexivity.
  exfalso. exact (Hp y eq_refl Hy Hxy).
Qed.

Lemma Array_sort_stable (p : A -> bool) (l : list A) :
  (forall x y, p x = true -> p y = true -> comparefn x y <> Gt) ->
  filter p (Array_sort comparefn l) = filter p l.
Proof.
  intros Hp. induction l as [|x l IH]; simpl; [reflexivity|].
  rewrite insertSorted_filter by (intros y; apply Hp).
  simpl. rewrite IH. reflexivity.
Qed.

(** Under a consistent comparator the result is sorted. *)
Hypothesis comparefn_total : forall x y, comparefn x y = Gt -> comparefn y x <> Gt.
Hypothesis comparefn_trans :
  forall x y z, notAfter x y -> notAfter y z -> notAfter x z.

Lemma insertSorted_sorted (x : A) (l : list A) :
  StronglySorted notAfter l -> StronglySorted notAfter (insertSorted comparefn x l).
Proof.
  induction l as [|y l IH]; intros Hs; simpl.
  - constructor; constructor.
  - inversion Hs as [|? ? Hl Hy]; subst.
    destruct (comparefn x y) eqn:Hxy.
    + constructor; [exact Hs|]. constructor.
      * unfold notAfter. rewrite Hxy. discriminate.
      * eapply Forall_impl; [|exact Hy]. intros z Hz.
        apply comparefn_trans with y; [|exact Hz].
        unfold notAfter. rewrite Hxy. discriminate.
    + constructor; [exact Hs|]. constructor.
      * unfold notAfter. rewrite Hxy. discriminate.
      * eapply Forall_impl; [|exact Hy]. intros z Hz.
        apply comparefn_trans with y; [|exact Hz].
        unfold notAfter. rewrite Hxy. discriminate.
    + constructor; [apply IH; exact Hl|].
      apply Forall_forall. intros z Hz.
      apply (Permutation_in _ (insertSorted_perm x l)) in Hz.
      destruct Hz as [<-|Hz].
      * apply comparefn_total. exact Hxy.
      * rewrite Forall_forall in Hy. apply Hy. exact Hz.
Qed.

Lemma Array_sort_sorted (l : list A) :
  StronglySorted notAfter (Array_sort comparefn l).
Proof.
  induction l as [|x l IH]; simpl.
  - constructor.
  - apply insertSorted_sorted. exact IH.
Qed.

(** In a sorted list, an element that must come strictly before another
    does occur before it. *)
Lemma sorted_before (l : list A) (a b : A) :
  StronglySorted notAfter l -> In a l -> In b l -> comparefn b a = Gt ->
  exists l1 l2 l3, l = l1 ++ a :: l2 ++ b :: l3.
Proof.
  intros Hs. induction Hs as [|x l Hl IH Hx]; intros Ha Hb Hgt; [destruct Ha|].
  rewrite Forall_forall in Hx.
  destruct Ha as [Hxa|Ha]; destruct Hb as [Hxb|Hb].
  - exfalso. rewrite <- Hxa, <- Hxb in Hgt.
    exact (comparefn_total _ _ Hgt Hgt).
  - apply in_split in Hb. destruct Hb as (l2 & l3 & ->).
    exists [], l2, l3. rewrite Hxa. reflexivity.
  - exfalso. rewrite <- Hxb in Hgt. exact (Hx a Ha Hgt).
  - destruct (IH Ha Hb Hgt) as (l1 & l2 & l3 & ->).
    exists (x :: l1), l2, l3. reflexivity.
Qed.

(** The head of a sorted list is not after any element, and is strictly
    before every element that precedes it in the input. *)
Lemma insertSorted_hd (x : A) (l : list A) :
  hd_error (insertSorted comparefn x l) =
  match hd_error l with
  | Some y => if match comparefn x y with Gt => true | _ => false end
              then Some y else Some x
  | None => Some x
  end.
Proof.
  destruct l as [|y l]; simpl; [reflexivity|].
  destruct (comparefn x y); reflexivity.
Qed.

End ArraySortFacts.

Lemma StronglySorted_weaken (A : Type) (R R' : A -> A -> Prop) (l : list A) :
  (forall x y, R x y -> R' x y) -> StronglySorted R l -> StronglySorted R' l.
Proof.
  intros HR. induction 1 as [|x l Hl IH Hx]; constructor.
  - exact IH.
  - eapply Forall_impl; [|exact Hx]. intros y. apply HR.
Qed.

Lemma StronglySorted_weaken_In (A : Type) (R R' : A -> A -> Prop) (l : list A) :
  (forall x y, In x l -> In y l -> R x y -> R' x y) ->
  StronglySorted R l -> StronglySorted R' l.
Proof.
  intros HR Hs. induction Hs as [|x l Hl IH Hx]; constructor.
  - apply IH. intros a b Ha Hb. apply HR; right; assumption.
  - rewrite Forall_forall in Hx |- *. intros y Hy.
    apply HR; [left; reflexivity | right; exact Hy | apply Hx; exact Hy].
Qed.

(** ** Sorting with a comparator that is consistent on the elements met *)

Section ArraySortOn.
Context {A : Type}.
Variable comparefn : A -> A -> comparison.
Variable P : A -> Prop.
Hypothesis total_on :
  forall x y, P x -> P y -> comparefn x y = Gt -> comparefn y x <> Gt.
Hypothesis trans_on :
  forall x y z, P x -> P y -> P z ->
    notAfter comparefn x y -> notAfter comparefn y z -> notAfter comparefn x z.

Lemma insertSorted_sorted_on (x : A) (l : list A) :
  P x -> Forall P l ->
  StronglySorted (notAfter comparefn) l ->
  StronglySorted (notAfter comparefn) (insertSorted comparefn x l).
Proof.
  intros Hx Hl Hs. induction Hs as [|y l Hsl IH Hy]; simpl.
  - constructor; constructor.
  - inversion Hl as [|? ? Py Pl]; subst.
    assert (Hfirst : comparefn x y <> Gt ->
                     StronglySorted (notAfter comparefn) (x :: y :: l)).
    { intros Hxy. constructor; [constructor; assumption|]. constructor; [exact Hxy|].
      rewrite Forall_forall in Hy, Pl |- *. intros z Hz.
      apply trans_on with y; auto. }
    destruct (comparefn x y) eqn:Hxy.
    + apply Hfirst. discriminate.
    + apply Hfirst. discriminate.
    + constructor; [apply IH; exact Pl|].
      apply Forall_forall. intros z Hz.
      apply (Permutation_in _ (insertSorted_perm comparefn x l)) in Hz.
      destruct Hz as [<-|Hz].
      * apply total_on; assumption.
      * rewrite Forall_forall in Hy. apply Hy. exact Hz.
Qed.

Lemma Array_sort_sorted_on (l : list A) :
  Forall P l -> StronglySorted (notAfter comparefn) (Array_sort comparefn l).
Proof.
  induction 1 as [|x l Hx Hl IH]; simpl; [constructor|].
  apply insertSorted_sorted_on; [exact Hx| |exact IH].
  rewrite Forall_forall in Hl |- *. intros z Hz. apply Hl.
  apply (Array_sort_In comparefn). exact Hz.
Qed.


(** An element that may stand before all the others is put first. *)
Lemma insertSorted_first (x : A) (l : list A) :
  (forall y, In y l -> notAfter comparefn x y) ->
  insertSorted comparefn x l = x :: l.
Proof.
  destruct l as [|y l]; [reflexivity|]. intros H. cbn [insertSorted].
  specialize (H y (or_introl eq_refl)). unfold notAfter in H.
  destruct (comparefn x y); [reflexivity | reflexivity | contradiction].
Qed.

(** Sorting and filtering can be done in either order. *)
Lemma insertSorted_filter_on (p : A -> bool) (x : A) (l : list A) :
  P x -> Forall P l -> StronglySorted (notAfter comparefn) l ->
  filter p (insertSorted comparefn x l)
  = if p x then insertSorted comparefn x (filter p l) else filter p l.
Proof.
  intros Px HP Hs. induction Hs as [|y l Hl IH Hy]; cbn [insertSorted filter].
  - destruct (p x); reflexivity.
  - inversion HP as [|? ? Py Pl]; subst.
    pose proof (proj1 (Forall_forall _ _) Pl) as Pin.
    rewrite Forall_forall in Hy.
    assert (Hfirst : notAfter comparefn x y ->
              (if p x then x :: filter p (y :: l) else filter p (y :: l))
              = if p x then insertSorted comparefn x (filter p (y :: l))
                else filter p (y :: l)).
    { intros Hxy. destruct (p x); [|reflexivity].
      symmetry. apply insertSorted_first. intros z Hz.
      apply filter_In in Hz. destruct Hz as [[<-|Hz] _]; [exact Hxy|].
      apply trans_on with y; auto. }
    destruct (comparefn x y) eqn:Hxy.
    + cbn [filter] in Hfirst |- *. apply Hfirst. unfold notAfter.
      rewrite Hxy. discriminate.
    + cbn [filter] in Hfirst |- *. apply Hfirst. unfold notAfter.
      rewrite Hxy. discriminate.
    + cbn [filter]. rewrite (IH Pl).
      destruct (p x), (p y); cbn [insertSorted]; rewrite ?Hxy; reflexivity.
Qed.

Lemma Array_sort_filter_on (p : A -> bool) (l : list A) :
  Forall P l ->
  filter p (Array_sort comparefn l) = Array_sort comparefn (filter p l).
Proof.
  induction 1 as [|x l Px Pl IH]; [reflexivity|].
  cbn [Array_sort fold_right filter].
  fold (Array_sort comparefn l).
  rewrite insertSorted_filter_on.
  - rewrite IH. destruct (p x); reflexivity.
  - exact Px.
  - rewrite Forall_forall in Pl |- *. intros z Hz. apply Pl.
    apply (Array_sort_In comparefn). exact Hz.
  - apply Array_sort_sorted_on. exact Pl.
Qed.

End ArraySortOn.

(** ** A collation to compute with: code-unit order *)

Definition codeUnitCompare (a b : string) : Z :=
  match String.compare a b with
  | Lt => -1
  | Eq => 0
  | Gt => 1
  end.

Lemma String_compare_refl (a : string) : String.compare a a = Eq.
Proof.
  pose proof (String.compare_antisym a a) as H.
  destruct (String.compare a a); simpl in H; congruence.
Qed.

Lemma codeUnitCompare_eq (a b : string) : codeUnitCompare a b = 0 <-> a = b.
Proof.
  unfold codeUnitCompare. split.
  - destruct (String.compare a b) eqn:H; try discriminate.
    intros _. apply String.compare_eq_iff. exact H.
  - intros ->. rewrite String_compare_refl. reflexivity.
Qed.

Lemma codeUnitCompare_swap (a b : string) :
  codeUnitCompare a b < 0 <-> 0 < codeUnitCompare b a.
Proof.
  unfold codeUnitCompare. rewrite (String.compare_antisym b a).
  destruct (String.compare a b); simpl; lia.
Qed.

Lemma codeUnitCompare_trans (a b c : string) :
  codeUnitCompare a b < 0 -> codeUnitCompare b c < 0 -> codeUnitCompare a c < 0.
Proof.
  unfold codeUnitCompare.
  destruct (String.compare a b) eqn:Hab; try lia.
  destruct (String.compare b c) eqn:Hbc; try lia.
  intros _ _.
  apply OrderedTypeEx.String_as_OT.cmp_lt in Hab, Hbc.
  pose proof (OrderedTypeEx.String_as_OT.lt_trans _ _ _ Hab Hbc) as Hac.
  apply OrderedTypeEx.String_as_OT.cmp_lt in Hac.
  unfold OrderedTypeEx.String_as_OT.cmp in Hac. rewrite Hac. lia.
Qed.

Definition codeUnitCollation : Collation.
Proof.
  refine {| localeCompare := codeUnitCompare;
            localeCompare_swap := codeUnitCompare_swap;
            localeCompare_trans := codeUnitCompare_trans |}.
  - intros a. apply codeUnitCompare_eq. reflexivity.
  - intros a b c Hab Hbc. apply codeUnitCompare_eq in Hab, Hbc.
    apply codeUnitCompare_eq. congruence.
Defined.

(** ** The order of the timeline *)

Section TimelineFacts.
Context {collation : Collation}.

(** [a] is dated later than [b], or on the same date and entered no
    earlier: the order "date descending, then createdAt descending". *)
Definition dateDescending (a b : Expense) : Prop :=
  0 < localeCompare a.(date) b.(date) \/
  (a.(date) = b.(date) /\ 0 <= localeCompare a.(createdAt) b.(createdAt)).

(** The collation tells the dates of [l] apart: two of them compare as
    zero only when they are the same text. The comparator of the
    timeline takes two dates for equal when [a.date === b.date] and orders
    them by [localeCompare] otherwise, so this is what makes it
    consistent on [l]. *)
Definition datesToldApart (l : list Expense) : Prop :=
  forall a b, In a l -> In b l ->
    localeCompare a.(date) b.(date) = 0 -> a.(date) = b.(date).

Lemma localeCompare_sym (a b : string) :
  localeCompare a b = 0 -> localeCompare b a = 0.
Proof.
  pose proof (localeCompare_swap a b). pose proof (localeCompare_swap b a). lia.
Qed.

Lemma localeCompare_nonneg_swap (a b : string) :
  0 <= localeCompare a b <-> localeCompare b a <= 0.
Proof.
  pose proof (localeCompare_swap a b). pose proof (localeCompare_swap b a). lia.
Qed.

Lemma localeCompare_pos_trans (a b c : string) :
  0 < localeCompare a b -> 0 < localeCompare b c -> 0 < localeCompare a c.
Proof.
  intros H1 H2. apply localeCompare_swap. apply localeCompare_swap in H1, H2.
  exact (localeCompare_trans _ _ _ H2 H1).
Qed.

Lemma localeCompare_pos_zero (a b c : string) :
  0 < localeCompare a b -> localeCompare b c = 0 -> 0 < localeCompare a c.
Proof.
  intros H1 H2.
  destruct (Z.lt_trichotomy (localeCompare a c) 0) as [H|[H|H]]; [| |exact H].
  - exfalso. apply localeCompare_swap in H1.
    pose proof (localeCompare_trans _ _ _ H1 H) as H3. lia.
  - exfalso. apply localeCompare_sym in H2.
    pose proof (localeCompare_equiv _ _ _ H H2) as H3. lia.
Qed.

Lemma localeCompare_zero_pos (a b c : string) :
  localeCompare a b = 0 -> 0 < localeCompare b c -> 0 < localeCompare a c.
Proof.
  intros H1 H2.
  destruct (Z.lt_trichotomy (localeCompare a c) 0) as [H|[H|H]]; [| |exact H].
  - exfalso. apply localeCompare_swap in H2.
    pose proof (localeCompare_trans _ _ _ H H2) as H3. lia.
  - exfalso. apply localeCompare_sym in H1.
    pose proof (localeCompare_equiv _ _ _ H1 H) as H3. lia.
Qed.

Lemma localeCompare_nonneg_trans (a b c : string) :
  0 <= localeCompare a b -> 0 <= localeCompare b c -> 0 <= localeCompare a c.
Proof.
  intros H1 H2.
  destruct (Z.eq_dec (localeCompare a b) 0) as [E1|E1];
    destruct (Z.eq_dec (localeCompare b c) 0) as [E2|E2].
  - rewrite (localeCompare_equiv _ _ _ E1 E2). lia.
  - pose proof (localeCompare_zero_pos a b c E1 ltac:(lia)). lia.
  - pose proof (localeCompare_pos_zero a b c ltac:(lia) E2). lia.
  - pose proof (localeCompare_pos_trans a b c ltac:(lia) ltac:(lia)). lia.
Qed.

Lemma notAfter_timelineOrder (a b : Expense) :
  (localeCompare a.(date) b.(date) = 0 -> a.(date) = b.(date)) ->
  (notAfter timelineOrder a b <-> dateDescending a b).
Proof.
  intros Hapart.
  unfold notAfter, timelineOrder, dateDescending, signOf.
  destruct (String.eqb_spec a.(date) b.(date)) as [E|E].
  - rewrite E, localeCompare_refl, localeCompare_nonneg_swap.
    rewrite Z.compare_gt_iff. split; intro H.
    + right. split; [reflexivity | lia].
    + destruct H as [H|[_ H]]; lia.
  - rewrite Z.compare_gt_iff.
    pose proof (localeCompare_nonneg_swap a.(date) b.(date)) as Hs.
    split; intro H.
    + left. assert (0 <= localeCompare (date a) (date b)) by (apply Hs; lia).
      assert (localeCompare (date a) (date b) <> 0) by tauto. lia.
    + destruct H as [H|[H _]]; [|contradiction].
      assert (localeCompare (date b) (date a) <= 0) by (apply Hs; lia). lia.
Qed.

Lemma dateDescending_total (a b : Expense) :
  (localeCompare a.(date) b.(date) = 0 -> a.(date) = b.(date)) ->
  dateDescending a b \/ dateDescending b a.
Proof.
  intros Hapart. unfold dateDescending.
  pose proof (localeCompare_nonneg_swap a.(createdAt) b.(createdAt)) as Hc.
  pose proof (localeCompare_swap a.(date) b.(date)) as Hs.
  destruct (Z.lt_trichotomy (localeCompare a.(date) b.(date)) 0) as [H|[H|H]].
  - right. left. tauto.
  - assert (E : a.(date) = b.(date)) by tauto.
    destruct (Z.le_gt_cases 0 (localeCompare a.(createdAt) b.(createdAt))) as [H'|H'].
    + left. right. tauto.
    + right. right. split; [congruence|].
      apply localeCompare_nonneg_swap. lia.
  - left. left. exact H.
Qed.

Lemma dateDescending_trans (a b c : Expense) :
  dateDescending a b -> dateDescending b c -> dateDescending a c.
Proof.
  unfold dateDescending.
  intros [H1|[E1 H1]] [H2|[E2 H2]].
  - left. apply localeCompare_pos_trans with b.(date); assumption.
  - left. rewrite <- E2. exact H1.
  - left. rewrite E1. exact H2.
  - right. split; [congruence|].
    apply localeCompare_nonneg_trans with b.(createdAt); assumption.
Qed.

(** On records whose dates the collation tells apart the comparator of the
    timeline is consistent, and the sort orders them. *)
Lemma timelineOrder_total (l : list Expense) (a b : Expense) :
  datesToldApart l -> In a l -> In b l ->
  timelineOrder a b = Gt -> timelineOrder b a <> Gt.
Proof.
  intros Hl Ha Hb H. apply notAfter_timelineOrder; [exact (Hl b a Hb Ha)|].
  destruct (dateDescending_total a b (Hl a b Ha Hb)) as [Hab|Hba]; [|exact Hba].
  apply notAfter_timelineOrder in Hab; [contradiction | exact (Hl a b Ha Hb)].
Qed.

Lemma timelineOrder_trans (l : list Expense) (a b c : Expense) :
  datesToldApart l -> In a l -> In b l -> In c l ->
  notAfter timelineOrder a b -> notAfter timelineOrder b c ->
  notAfter timelineOrder a c.
Proof.
  intros Hl Ha Hb Hc.
  rewrite (notAfter_timelineOrder a b (Hl a b Ha Hb)),
          (notAfter_timelineOrder b c (Hl b c Hb Hc)),
          (notAfter_timelineOrder a c (Hl a c Ha Hc)).
  apply dateDescending_trans.
Qed.

Lemma timelineOrder_sorts (l : list Expense) :
  datesToldApart l ->
  StronglySorted (notAfter timelineOrder) (Array_sort timelineOrder l).
Proof.
  intros Hl.
  apply (Array_sort_sorted_on timelineOrder (fun e => In e l)).
  - intros x y. apply timelineOrder_total. exact Hl.
  - intros x y z. apply timelineOrder_trans. exact Hl.
  - apply Forall_forall. auto.
Qed.

Lemma timelineOrder_sorts_dateDescending (l : list Expense) :
  datesToldApart l ->
  StronglySorted dateDescending (Array_sort timelineOrder l).
Proof.
  intros Hl.
  eapply StronglySorted_weaken_In; [|apply timelineOrder_sorts; exact Hl].
  intros x y Hx Hy. rewrite (Array_sort_In timelineOrder) in Hx, Hy.
  apply notAfter_timelineOrder. exact (Hl x y Hx Hy).
Qed.

Lemma datesToldApart_incl (l l' : list Expense) :
  incl l' l -> datesToldApart l -> datesToldApart l'.
Proof. intros Hi Hl a b Ha Hb. apply Hl; apply Hi; assumption. Qed.

End TimelineFacts.

(** ** Strings: trimming, lower-casing and searching *)

Module JsStringFacts.
Import JsString.

(** Every code unit of [s] is white space. *)
Definition whiteSpaceOnly (s : string) : Prop :=
  forall c, In c (list_ascii_of_string s) -> isWhiteSpace c = true.



Lemma truthy_iff (s : string) : truthy s = true <-> s <> EmptyString.
Proof. destruct s; simpl; split; congruence. Qed.

Lemma trimStart_empty_iff (s : string) :
  trimStart s = EmptyString <-> whiteSpaceOnly s.
Proof.
  unfold whiteSpaceOnly. induction s as [|c s IH]; simpl.
  - split; [intros _ c []|reflexivity].
  - destruct (isWhiteSpace c) eqn:Hc.
    + rewrite IH. split.
      * intros H d [<-|Hd]; [exact Hc | apply H; exact Hd].
      * intros H d Hd. apply H. right. exact Hd.
    + split; [discriminate|].
      intros H. specialize (H c (or_introl eq_refl)). congruence.
Qed.

Lemma trimEnd_empty_iff (s : string) :
  trimEnd s = EmptyString <-> whiteSpaceOnly s.
Proof.
  unfold whiteSpaceOnly. induction s as [|c s IH]; simpl.
  - split; [intros _ c []|reflexivity].
  - destruct (trimEnd s) eqn:Ht.
    + destruct (isWhiteSpace c) eqn:Hc.
      * split; [|reflexivity].
        intros _ d [<-|Hd]; [exact Hc|]. apply IH; [reflexivity | exact Hd].
      * split; [discriminate|].
        intros H. specialize (H c (or_introl eq_refl)). congruence.
    + split; [discriminate|].
      intros H. assert (E : String a s0 = EmptyString); [|discriminate E].
      apply IH. intros d Hd. apply H. right. exact Hd.
Qed.

Lemma trimStart_whiteSpaceOnly (s : string) :
  whiteSpaceOnly (trimStart s) <-> whiteSpaceOnly s.
Proof.
  unfold whiteSpaceOnly. induction s as [|c s IH]; simpl; [tauto|].
  destruct (isWhiteSpace c) eqn:Hc; [|tauto].
  rewrite IH. split.
  - intros H d [<-|Hd]; [exact Hc | apply H; exact Hd].
  - intros H d Hd. apply H. right. exact Hd.
Qed.

Lemma trim_empty_iff (s : string) : trim s = EmptyString <-> whiteSpaceOnly s.
Proof.
  unfold trim. rewrite trimEnd_empty_iff. apply trimStart_whiteSpaceOnly.
Qed.

Lemma startsWith_iff (s t : string) :
  startsWith s t = true <-> exists after, s = (t ++ after)%string.
Proof.
  unfold startsWith. revert s. induction t as [|c t IH]; intros s.
  - destruct s; simpl; split; eauto.
  - destruct s as [|d s]; simpl.
    + split; [discriminate | intros [a Ha]; discriminate Ha].
    + destruct (ascii_dec c d) as [->|Hne].
      * rewrite IH. split; intros [a Ha]; exists a; congruence.
      * split; [discriminate|]. intros [a Ha]. congruence.
Qed.






End JsStringFacts.

(** ** The record store: deletion *)

Lemma filter_id (A : Type) (p : A -> bool) (l : list A) :
  (forall x, In x l -> p x = true) -> filter p l = l.
Proof.
  induction l as [|x l IH]; simpl; intros H; [reflexivity|].
  rewrite (H x (or_introl eq_refl)), IH; [reflexivity|].
  intros y Hy. apply H. right. exact Hy.
Qed.

Lemma filter_idempotent (A : Type) (p : A -> bool) (l : list A) :
  filter p (filter p l) = filter p l.
Proof.
  apply filter_id. intros x Hx. apply filter_In in Hx. tauto.
Qed.

(** C9. [handleDelete] removes every record with the given id and keeps
    the others; when no record has that id the state is returned as it
    is; and deleting the same id a second time changes nothing more. *)
Theorem handleDelete_removes_noop_idempotent (target : string) (st : State) :
  (forall e, In e (handleDelete target st).(expenses) <->
             In e st.(expenses) /\ e.(id) <> target) /\
  ((forall e, In e st.(expenses) -> e.(id) <> target) ->
   handleDelete target st = st) /\
  handleDelete target (handleDelete target st) = handleDelete target st.
Proof.
  split; [|split].
  - intros e. unfold handleDelete. simpl. rewrite filter_In, negb_true_iff.
    rewrite String.eqb_neq. tauto.
  - intros Habsent. destruct st as [es dr mo cf se er]. unfold handleDelete. simpl.
    f_equal. apply filter_id. intros e He.
    apply negb_true_iff, String.eqb_neq, (Habsent e He).
  - unfold handleDelete. simpl. rewrite filter_idempotent. reflexivity.
Qed.

Definition sampleDraft : DraftExpense :=
  {| Draft.description := ""; Draft.category := ""; Draft.amount := "";
     Draft.date := "2024-03-02"; Draft.note := "" |}.

Definition coffee : Expense :=
  {| id := "a1"; description := "Coffee beans"; category := "Food";
     amount := ofZ 10; date := "2024-03-01"; note := None;
     createdAt := "2024-03-01T09:00:00.000Z" |}.

Definition keyboard : Expense :=
  {| id := "b2"; description := "Keyboard"; category := "Tech";
     amount := ofZ 20; date := "2024-03-02"; note := Some "Office LUNCH talk";
     createdAt := "2024-03-02T10:00:00.000Z" |}.

Definition cable : Expense :=
  {| id := "c3"; description := "Cable"; category := "Tech";
     amount := ofZ 5; date := "2024-03-02"; note := None;
     createdAt := "2024-03-02T18:30:00.000Z" |}.

Definition sampleState : State :=
  {| expenses := [coffee; keyboard];
     draft := sampleDraft;
     month := "2024-03";
     categoryFilter := "all";
     searchTerm := "";
     error := None |}.

Lemma handleDelete_removes_noop_idempotent_witness :
  handleDelete "zz" sampleState = sampleState.
Proof.
  refine (proj1 (proj2 (handleDelete_removes_noop_idempotent "zz" sampleState)) _).
  intros e [<-|[<-|[]]]; simpl; discriminate.
Defined.

(** ** The search filter *)

Section SearchFacts.
Context {collation : Collation}.
Import JsString JsStringFacts.



End SearchFacts.


Example search_finds_note_ignoring_case :
  filteredExpenses (collation := codeUnitCollation)
    [coffee; keyboard; cable] "2024-03" "all" "  lunch " = [keyboard].
Proof. vm_compute. reflexivity. Qed.

(** ** The 16-bit strings and the strings below U+0100 *)

Module JsString16Facts.
Import JsString16.

Lemma isWhiteSpace_ofAscii (c : ascii) :
  isWhiteSpace (N_of_ascii c) = JsString.isWhiteSpace c.
Proof. destruct c as [[] [] [] [] [] [] [] []]; reflexivity. Qed.

Lemma lowerUnit_ofAscii (before after : text) (c : ascii) :
  lowerUnit before (N_of_ascii c) after = Some (N_of_ascii (JsString.lowerChar c)).
Proof. destruct c as [[] [] [] [] [] [] [] []]; reflexivity. Qed.

Lemma ofString_cons (c : ascii) (s : string) :
  ofString (String c s) = N_of_ascii c :: ofString s.
Proof. reflexivity. Qed.

Lemma trimStart_ofString (s : string) :
  trimStart (ofString s) = ofString (JsString.trimStart s).
Proof.
  induction s as [|c s IH]; [reflexivity|].
  rewrite ofString_cons. cbn [trimStart JsString.trimStart].
  rewrite isWhiteSpace_ofAscii.
  destruct (JsString.isWhiteSpace c); [exact IH | reflexivity].
Qed.

Lemma trimEnd_ofString (s : string) :
  trimEnd (ofString s) = ofString (JsString.trimEnd s).
Proof.
  induction s as [|c s IH]; [reflexivity|].
  rewrite ofString_cons. cbn [trimEnd JsString.trimEnd].
  rewrite IH, isWhiteSpace_ofAscii.
  destruct (JsString.trimEnd s); [|reflexivity].
  destruct (JsString.isWhiteSpace c); reflexivity.
Qed.

Lemma trim_ofString (s : string) :
  trim (ofString s) = ofString (JsString.trim s).
Proof.
  unfold trim, JsString.trim. rewrite trimStart_ofString. apply trimEnd_ofString.
Qed.

Lemma lowerFrom_ofString (before : text) (s : string) :
  lowerFrom before (ofString s) = Some (ofString (JsString.toLowerCase s)).
Proof.
  revert before. induction s as [|c s IH]; intros before; [reflexivity|].
  rewrite ofString_cons. cbn [lowerFrom JsString.toLowerCase].
  rewrite lowerUnit_ofAscii, IH. reflexivity.
Qed.

(** On a text below U+0100 lower-casing is the unit-by-unit one of
    [JsString]. *)
Lemma toLowerCase_ofString (s : string) :
  toLowerCase (ofString s) = Some (ofString (JsString.toLowerCase s)).
Proof. apply lowerFrom_ofString. Qed.

Lemma eqb_ofAscii (a b : ascii) :
  (N_of_ascii a =? N_of_ascii b)%N = if ascii_dec a b then true else false.
Proof.
  destruct (ascii_dec a b) as [->|Hne].
  - apply N.eqb_refl.
  - apply N.eqb_neq. intros H. apply Hne.
    rewrite <- (ascii_N_embedding a), <- (ascii_N_embedding b), H. reflexivity.
Qed.

Lemma startsWith_ofString (s p : string) :
  startsWith (ofString s) (ofString p) = JsString.startsWith s p.
Proof.
  unfold JsString.startsWith. revert s.
  induction p as [|a p IH]; intros s; [destruct s; reflexivity|].
  destruct s as [|b s]; [reflexivity|].
  rewrite !ofString_cons. cbn [startsWith String.prefix].
  rewrite eqb_ofAscii, IH. destruct (ascii_dec a b); reflexivity.
Qed.

Lemma includes_ofString (s p : string) :
  includes (ofString s) (ofString p) = JsString.includes s p.
Proof.
  induction s as [|c s IH].
  - cbn [ofString list_ascii_of_string map includes JsString.includes].
    rewrite <- startsWith_ofString. reflexivity.
  - rewrite ofString_cons. cbn [includes JsString.includes].
    rewrite <- ofString_cons, startsWith_ofString, IH. reflexivity.
Qed.

(** On records and terms below U+0100 the callback on 16-bit texts is
    the callback of the timeline. *)
Lemma matchesSearch16_ofString (searchTerm : string) (e : Expense) :
  matchesSearch16 (ofString searchTerm) (ofString e.(description))
    (option_map ofString e.(note))
  = Some (matchesSearch searchTerm e).
Proof.
  unfold matchesSearch16, matchesSearch.
  rewrite trim_ofString, !toLowerCase_ofString, includes_ofString.
  destruct (JsString.includes _ _); [reflexivity|].
  destruct e.(note) as [n|]; [|reflexivity].
  cbn [option_map orb]. rewrite toLowerCase_ofString, includes_ofString.
  reflexivity.
Qed.

End JsString16Facts.



(** ** The sort of the timeline *)

Section TimelineSorted.
Context {collation : Collation}.



End TimelineSorted.

(** The code-unit order tells any two different texts apart. *)
Lemma codeUnit_datesToldApart (l : list Expense) :
  datesToldApart (collation := codeUnitCollation) l.
Proof. intros a b _ _. apply codeUnitCompare_eq. Qed.


Example timeline_latest_entry_first :
  filteredExpenses (collation := codeUnitCollation)
    [coffee; keyboard; cable] "2024-03" "all" "" = [cable; keyboard; coffee].
Proof. vm_compute. reflexivity. Qed.

(** ** Validation of a draft *)

Module JsNumberFacts.

Lemma pow2_pos (e : Z) : 0 < 2 ^ e \/ e < 0.
Proof.
  destruct (Z.lt_ge_cases e 0) as [H|H]; [right; exact H|left].
  apply Z.pow_pos_nonneg; lia.
Qed.

(** On a finite number, [x <= 0] is the comparison of its value with 0. *)
Lemma leb_zero_iff (x : number) :
  isFinite x = true -> (leb x zero = true <-> (value x <= 0)%Q).
Proof.
  destruct x as [s|s| |s m e]; cbn [isFinite]; try discriminate; intros _.
  - split; [intros _; apply Qle_refl | reflexivity].
  - assert (Hleb : leb (S754_finite s m e) zero = s) by (destruct s; reflexivity).
    rewrite Hleb.
    pose proof (Pos2Z.is_pos m) as Hm.
    unfold value.
    destruct (0 <=? e) eqn:He.
    + apply Z.leb_le in He.
      assert (0 < 2 ^ e) by (apply Z.pow_pos_nonneg; lia).
      unfold Qle, inject_Z, cond_Zopp. cbn [Qnum Qden].
      destruct s; split; try reflexivity; try discriminate; intros H'; nia.
    + unfold Qle, cond_Zopp. cbn [Qnum Qden].
      destruct s; split; try reflexivity; try discriminate; intros H'; lia.
Qed.

(** A number that passes [handleSubmit]'s amount check is a positive
    finite one. *)
Lemma accepted_amount_positive (x : number) :
  isFinite x = true -> leb x zero = false ->
  exists m e, x = S754_finite false m e.
Proof.
  destruct x as [s|s| |s m e]; cbn [isFinite]; try discriminate.
  intros _ H. destruct s; [vm_compute in H; discriminate H|]. eauto.
Qed.

End JsNumberFacts.

Section ValidationFacts.
Variable Date_parse : string -> number.
Variable Number_toString : number -> string.
Import JsString JsStringFacts JsNumberFacts.

Lemma withError_expenses (st : State) (message : string) :
  (withError st message).(expenses) = st.(expenses) /\
  (withError st message).(draft) = st.(draft) /\
  (withError st message).(error) = Some message.
Proof. repeat split. Qed.

(** C2. [handleSubmit] checks the description, then the amount, then
    the date, and stops at the first check that fails, setting that
    check's message and nothing else: a blank description gives
    EmptyDescription; otherwise an amount that is not finite or is at
    most 0, as "0", "-5" and "abc" are, gives InvalidAmount; otherwise
    an empty date or one [Date.parse] cannot read gives InvalidDate;
    and whenever a message is set the records are the ones there were. *)
Theorem handleSubmit_validates_in_order (uuid now : string) (st : State) :
  let d := st.(draft) in
  let amountValue := parseFloat d.(Draft.amount) in
  let blankDescription := whiteSpaceOnly d.(Draft.description) in
  let badAmount := isFinite amountValue = false \/ (value amountValue <= 0)%Q in
  let badDate :=
    d.(Draft.date) = EmptyString \/ isNaN (Date_parse d.(Draft.date)) = true in
  let after := handleSubmit Date_parse Number_toString uuid now st in
  (blankDescription -> after = withError st EmptyDescription) /\
  (~ blankDescription -> badAmount -> after = withError st InvalidAmount) /\
  (~ blankDescription ->
     In d.(Draft.amount) ["0"; "-5"; "abc"] -> after = withError st InvalidAmount) /\
  (~ blankDescription -> ~ badAmount -> badDate ->
     after = withError st InvalidDate) /\
  (~ blankDescription -> ~ badAmount -> ~ badDate ->
     after.(error) = None /\
     exists payload, after.(expenses) = payload :: st.(expenses)) /\
  (after.(error) <> None ->
     after.(expenses) = st.(expenses) /\ after.(draft) = st.(draft)).
Proof.
  intros d amountValue blankDescription badAmount badDate after.
  assert (Hdesc : truthy (trim d.(Draft.description)) = false <-> blankDescription).
  { unfold blankDescription. rewrite <- trim_empty_iff.
    destruct (trim d.(Draft.description)); simpl; split; congruence. }
  assert (Hamount : negb (isFinite amountValue) || leb amountValue zero = true
                    <-> badAmount).
  { unfold badAmount. rewrite orb_true_iff, negb_true_iff.
    destruct (isFinite amountValue) eqn:Hfin.
    - rewrite (leb_zero_iff _ Hfin). split; intros [H|H]; auto; discriminate.
    - split; auto. }
  assert (Hdate : negb (truthy d.(Draft.date)) || isNaN (Date_parse d.(Draft.date))
                  = true <-> badDate).
  { unfold badDate. rewrite orb_true_iff, negb_true_iff.
    destruct d.(Draft.date); simpl; split; intros [H|H]; auto; discriminate. }
  subst after. unfold handleSubmit. fold d. fold amountValue.
  destruct (truthy (trim d.(Draft.description))) eqn:Ed; simpl.
  - assert (Hnb : ~ blankDescription) by (intro Hb; apply Hdesc in Hb; discriminate).
    destruct (negb (isFinite amountValue) || leb amountValue zero) eqn:Ea.
    + assert (Hbad : badAmount) by (apply Hamount; reflexivity).
      repeat split; auto; try tauto.
    + assert (Hok : ~ badAmount) by (intro Hb; apply Hamount in Hb; discriminate).
      assert (Hsamples : ~ In d.(Draft.amount) ["0"; "-5"; "abc"]).
      { intros Hin. unfold amountValue in Ea.
        destruct Hin as [E|[E|[E|[]]]]; rewrite <- E in Ea;
          vm_compute in Ea; discriminate Ea. }
      destruct (negb (truthy d.(Draft.date)) || isNaN (Date_parse d.(Draft.date)))
        eqn:Edate.
      * assert (Hbd : badDate) by (apply Hdate; reflexivity).
        repeat split; auto; try tauto.
        intros _ Hin. exfalso. exact (Hsamples Hin).
      * assert (Hgd : ~ badDate) by (intro Hb; apply Hdate in Hb; discriminate).
        repeat split; simpl; try tauto; eauto.
        intros _ Hin. exfalso. exact (Hsamples Hin).
  - assert (Hb : blankDescription) by (apply Hdesc; reflexivity).
    repeat split; auto; try tauto.
Qed.

End ValidationFacts.

(** A stand-in for [Date.parse] to compute with: ten characters make a
    date, anything else is not one. *)
Definition sampleDateParse (s : string) : number :=
  if (String.length s =? 10)%nat then ofZ 1709337600000 else NaN.

Definition sampleNumberToString (x : number) : string := "1e+21".

Definition draftOf (text amountText : string) : State :=
  {| expenses := [coffee];
     draft := {| Draft.description := text; Draft.category := "";
                 Draft.amount := amountText; Draft.date := "2024-03-02";
                 Draft.note := " " |};
     month := "2024-03"; categoryFilter := "all"; searchTerm := "";
     error := None |}.

Lemma handleSubmit_validates_in_order_witness :
  handleSubmit sampleDateParse sampleNumberToString "u1" "2024-03-02T12:00:00.000Z"
    (draftOf " Tea " "-5")
  = withError (draftOf " Tea " "-5") InvalidAmount.
Proof.
  refine (proj1 (proj2 (proj2
            (handleSubmit_validates_in_order sampleDateParse sampleNumberToString
               "u1" "2024-03-02T12:00:00.000Z" (draftOf " Tea " "-5")))) _ _).
  - intros H. specialize (H "T"%char). simpl in H.
    assert (E : JsString.isWhiteSpace "T" = true) by (apply H; tauto).
    discriminate E.
  - simpl. tauto.
Defined.

(** ** Rounding of the stored amount *)

Module NumberFormatFacts.
Import NumberFormat.

(** [toFixed(2)] picks the hundredth nearest to the number, the upper
    one when two are equally near. *)
Lemma fixedDigits2_nearest (m : positive) (e : Z) :
  let n := fixedDigits2 (Zpos m) e in
  let x := S754_finite false m e in
  (100 * value x - (1 # 2) < inject_Z n)%Q /\
  (inject_Z n <= 100 * value x + (1 # 2))%Q /\
  0 <= n.
Proof.
  intros n x. subst n x. unfold fixedDigits2, value.
  pose proof (Pos2Z.is_pos m) as Hm.
  destruct (0 <=? e) eqn:He.
  - apply Z.leb_le in He.
    assert (0 < 2 ^ e) by (apply Z.pow_pos_nonneg; lia).
    unfold Qlt, Qle, Qminus, Qplus, Qmult, Qopp, inject_Z, cond_Zopp.
    cbn [Qnum Qden]. rewrite ?Pos.mul_1_l, ?Pos.mul_1_r.
    repeat split; nia.
  - apply Z.leb_gt in He.
    set (d := 2 ^ (- e)).
    assert (Hd : 0 < d) by (apply Z.pow_pos_nonneg; lia).
    pose proof (Z.div_mod (100 * Zpos m) d ltac:(lia)) as Hdm.
    pose proof (Z.mod_pos_bound (100 * Zpos m) d Hd) as Hr.
    assert (Hq : 0 <= 100 * Zpos m / d) by (apply Z.div_pos; lia).
    unfold Qlt, Qle, Qminus, Qplus, Qmult, Qopp, inject_Z, cond_Zopp.
    cbn [Qnum Qden]. rewrite ?Pos.mul_1_l, ?Pos.mul_1_r.
    rewrite !Pos2Z.inj_mul, !Z2Pos.id by exact Hd.
    destruct (d <=? 2 * (100 * Zpos m mod d)) eqn:Hc;
      [apply Z.leb_le in Hc | apply Z.leb_gt in Hc];
      repeat split; nia.
Qed.

Lemma digit_cases (d : Z) :
  0 <= d <= 9 ->
  d = 0 \/ d = 1 \/ d = 2 \/ d = 3 \/ d = 4 \/ d = 5 \/ d = 6 \/ d = 7 \/
  d = 8 \/ d = 9.
Proof. lia. Qed.

Ltac each_digit d H :=
  destruct (digit_cases d H) as [->|[->|[->|[->|[->|[->|[->|[->|[->| ->]]]]]]]]].

Lemma digitValue_digitChar (d : Z) :
  0 <= d <= 9 -> digitValue 10 (digitChar d) = Some d.
Proof. intros H. each_digit d H; reflexivity. Qed.

Lemma digitChar_plain (d : Z) :
  0 <= d <= 9 ->
  JsString.isWhiteSpace (digitChar d) = false /\
  digitChar d <> "-"%char /\ digitChar d <> "+"%char /\
  digitChar d <> "I"%char.
Proof. intros H. each_digit d H; repeat split; discriminate. Qed.

Lemma digitsBefore_app (fuel : nat) (n : Z) (acc tail : string) :
  (digitsBefore fuel n acc ++ tail)%string = digitsBefore fuel n (acc ++ tail).
Proof.
  revert n acc. induction fuel as [|fuel IH]; intros n acc; simpl; [reflexivity|].
  destruct (n <? 10); [reflexivity|]. rewrite IH. reflexivity.
Qed.

(** Reading back the digits that were written. *)
Lemma digitsBefore_scan (fuel : nat) :
  forall n acc, 0 <= n < 10 ^ Z.of_nat (S fuel) ->
  (exists k, 0 < k /\
     scanDigits 10 (digitsBefore (S fuel) n acc) 0 0 = scanDigits 10 acc n k) /\
  ((n = 0 /\ digitsBefore (S fuel) n acc = String "0" acc) \/
   (exists d rest, 1 <= d <= 9 /\
      digitsBefore (S fuel) n acc = String (digitChar d) rest)).
Proof.
  assert (Hsmall : forall f n acc, 0 <= n < 10 ->
    (exists k, 0 < k /\
       scanDigits 10 (digitsBefore (S f) n acc) 0 0 = scanDigits 10 acc n k) /\
    ((n = 0 /\ digitsBefore (S f) n acc = String "0" acc) \/
     (exists d rest, 1 <= d <= 9 /\
        digitsBefore (S f) n acc = String (digitChar d) rest))).
  { intros f n acc Hlt. cbn [digitsBefore].
    replace (n <? 10) with true by (symmetry; apply Z.ltb_lt; lia).
    assert (Hmod : n mod 10 = n) by (apply Z.mod_small; lia).
    rewrite Hmod. split.
    - exists 1. split; [lia|]. cbn [scanDigits].
      rewrite digitValue_digitChar by lia. reflexivity.
    - destruct (Z.eq_dec n 0) as [->|Hnz]; [left; auto|].
      right. exists n, acc. split; [lia | reflexivity]. }
  induction fuel as [|fuel IH]; intros n acc Hn.
  - apply Hsmall. simpl in Hn. lia.
  - destruct (Z.lt_ge_cases n 10) as [Hlt|Hge]; [apply Hsmall; lia|].
    change (digitsBefore (S (S fuel)) n acc)
      with (let acc' := String (digitChar (n mod 10)) acc in
            if n <? 10 then acc' else digitsBefore (S fuel) (n / 10) acc').
    cbv zeta.
    replace (n <? 10) with false by (symmetry; apply Z.ltb_ge; lia).
    assert (Hq : 0 <= n / 10 < 10 ^ Z.of_nat (S fuel)).
    { rewrite (Nat2Z.inj_succ (S fuel)), Z.pow_succ_r in Hn by lia.
      split; [apply Z.div_pos; lia|]. apply Z.div_lt_upper_bound; lia. }
    assert (Hq1 : 1 <= n / 10) by (apply Z.div_le_lower_bound; lia).
    destruct (IH (n / 10) (String (digitChar (n mod 10)) acc) Hq)
      as [(k & Hk & Hscan) Hlead].
    split.
    + exists (k + 1). split; [lia|]. rewrite Hscan. cbn [scanDigits].
      pose proof (Z.mod_pos_bound n 10 ltac:(lia)) as Hm.
      rewrite digitValue_digitChar by lia.
      pose proof (Z.div_mod n 10 ltac:(lia)).
      replace (n / 10 * 10 + n mod 10) with n by lia. reflexivity.
    + right. destruct Hlead as [[H0 _]|(d & rest & Hd & E)]; [lia|].
      exists d, rest. auto.
Qed.

Lemma digits_fuel (n : Z) : 0 <= n -> n < 10 ^ Z.of_nat (S (Z.to_nat (Z.log2 n))).
Proof.
  intros Hn. destruct (Z.eq_dec n 0) as [->|Hnz]; [reflexivity|].
  pose proof (Z.log2_nonneg n) as Hl.
  rewrite Nat2Z.inj_succ, Z2Nat.id by exact Hl.
  apply Z.lt_le_trans with (2 ^ Z.succ (Z.log2 n)).
  - apply Z.log2_spec. lia.
  - apply Z.pow_le_mono_l. lia.
Qed.

Lemma trimEnd_last (s : string) (c : ascii) :
  JsString.isWhiteSpace c = false ->
  JsString.trimEnd (s ++ String c EmptyString) = (s ++ String c EmptyString)%string.
Proof.
  intros Hc. induction s as [|x s IH]; simpl.
  - rewrite Hc. reflexivity.
  - rewrite IH. destruct (s ++ String c "")%string eqn:E; [|reflexivity].
    destruct s; discriminate E.
Qed.

Lemma append_assoc (a b c : string) : ((a ++ b) ++ c = a ++ (b ++ c))%string.
Proof. induction a as [|x a IH]; simpl; [reflexivity | rewrite IH; reflexivity]. Qed.

(** [Number] reads the text of [toFixed(2)] as the double nearest to
    the hundredths written. *)
Lemma ofString_fixed2 (n : Z) :
  0 <= n -> ofString (fixed2 n) = ofDecimal false n (-2).
Proof.
  intros Hn. unfold fixed2, digits.
  set (q := n / 100). set (d1 := n / 10 mod 10). set (d0 := n mod 10).
  assert (Hq : 0 <= q) by (apply Z.div_pos; lia).
  assert (Hd1 : 0 <= d1 <= 9) by (pose proof (Z.mod_pos_bound (n / 10) 10); lia).
  assert (Hd0 : 0 <= d0 <= 9) by (pose proof (Z.mod_pos_bound n 10); lia).
  assert (Hn' : n = q * 100 + d1 * 10 + d0).
  { unfold q, d1, d0.
    pose proof (Z.div_mod n 10 ltac:(lia)) as H1.
    pose proof (Z.div_mod (n / 10) 10 ltac:(lia)) as H2.
    assert (H3 : n / 100 = n / 10 / 10) by (rewrite Z.div_div by lia; reflexivity).
    rewrite H3. lia. }
  set (fuel := S (Z.to_nat (Z.log2 q))).
  set (tail := String "." (String (digitChar d1) (String (digitChar d0) EmptyString))).
  rewrite digitsBefore_app. cbn [append].
  destruct (digitsBefore_scan (Z.to_nat (Z.log2 q)) q tail
              (conj Hq (digits_fuel q Hq)))
    as [(k & Hk & Hscan) Hlead]. fold fuel in Hscan, Hlead.
  set (text := digitsBefore fuel q tail) in *.
  assert (Htrim : JsString.trim text = text).
  { unfold JsString.trim.
    assert (Hstart : JsString.trimStart text = text).
    { destruct Hlead as [[_ E]|(d & rest & Hd & E)]; rewrite E; [reflexivity|].
      simpl. destruct (digitChar_plain d ltac:(lia)) as [-> _]. reflexivity. }
    rewrite Hstart. unfold text.
    replace tail with (String "." (String (digitChar d1) EmptyString)
                       ++ String (digitChar d0) EmptyString)%string by reflexivity.
    rewrite <- digitsBefore_app. apply trimEnd_last.
    apply digitChar_plain. exact Hd0. }
  unfold ofString. rewrite Htrim.
  assert (Hne : exists c rest, text = String c rest /\
                               c <> "-"%char /\ c <> "+"%char /\ c <> "I"%char /\
                               scanRadixLiteral text = None).
  { destruct Hlead as [[_ E]|(d & rest & Hd & E)].
    - exists "0"%char, tail. rewrite E. repeat split; discriminate.
    - exists (digitChar d), rest. rewrite E.
      destruct (digitChar_plain d ltac:(lia)) as (_ & H1 & H2 & H3).
      repeat split; auto.
      assert (Hd' : 0 <= d <= 9) by lia.
      each_digit d Hd'; try lia; reflexivity. }
  destruct Hne as (c & rest & Etext & Hminus & Hplus & HI & Hradix).
  rewrite Hradix. unfold scanStrDecimalLiteral.
  assert (Hsign : match text with
                  | String "-"%char r => (true, r)
                  | String "+"%char r => (false, r)
                  | _ => (false, text)
                  end = (false, text)).
  { rewrite Etext.
    destruct c as [[] [] [] [] [] [] [] []]; try reflexivity; congruence. }
  rewrite Hsign.
  assert (Hinf : String.prefix "Infinity" text = false).
  { rewrite Etext.
    change (String.prefix "Infinity" (String c rest))
      with (if ascii_dec "I" c then String.prefix "nfinity" rest else false).
    destruct (ascii_dec "I" c) as [E|_]; [congruence | reflexivity]. }
  assert (Htail : scanDigits 10 tail q k = (q, k, tail)) by reflexivity.
  assert (Hfrac : scanDigits 10 (String (digitChar d1) (String (digitChar d0) EmptyString))
                    q 0 = (n, 2, EmptyString)).
  { cbn [scanDigits]. rewrite !digitValue_digitChar by assumption.
    f_equal. f_equal. lia. }
  rewrite Hinf, Hscan, Htail. unfold tail. rewrite Hfrac.
  replace (0 <? k) with true by (symmetry; apply Z.ltb_lt; exact Hk).
  rewrite Etext. reflexivity.
Qed.

End NumberFormatFacts.

Section RoundingFacts.
Variable Date_parse : string -> number.
Variable Number_toString : number -> string.
Import JsNumberFacts NumberFormat NumberFormatFacts.

(** C5. When [handleSubmit] accepts a draft, the amount it stores is
    the parsed amount [x] rounded to hundredths, halves upward: below
    10^21 it is the double nearest to [n / 100], where [n] is the
    integer with [100 x - 1/2 < n <= 100 x + 1/2]; from 10^21 on, where
    every double is an integer, it is [x] as the host prints and reads
    it back. In particular the amount text "12.345" is stored as
    12.35. *)
Theorem handleSubmit_stores_amount_rounded_half_up
  (uuid now : string) (st : State) :
  let x := parseFloat st.(draft).(Draft.amount) in
  let after := handleSubmit Date_parse Number_toString uuid now st in
  after.(error) = None ->
  exists payload m e,
    after.(expenses) = payload :: st.(expenses) /\
    x = S754_finite false m e /\
    (leb (ofZ (10 ^ 21)) x = false ->
       exists n,
         (100 * value x - (1 # 2) < inject_Z n)%Q /\
         (inject_Z n <= 100 * value x + (1 # 2))%Q /\
         payload.(amount) = ofDecimal false n (-2)) /\
    (leb (ofZ (10 ^ 21)) x = true ->
       ofString (Number_toString x) = x -> payload.(amount) = x) /\
    (st.(draft).(Draft.amount) = "12.345" ->
       payload.(amount) = parseFloat "12.35").
Proof.
  intros x after Haccepted. subst after. unfold handleSubmit in *. fold x in Haccepted |- *.
  destruct (JsString.truthy (JsString.trim st.(draft).(Draft.description)));
    [|discriminate Haccepted].
  cbn [negb] in *.
  destruct (negb (isFinite x) || leb x zero) eqn:Ex; [discriminate Haccepted|].
  destruct (negb (JsString.truthy st.(draft).(Draft.date))
            || isNaN (Date_parse st.(draft).(Draft.date)));
    [discriminate Haccepted|].
  apply orb_false_iff in Ex. destruct Ex as [Efin Eleb].
  apply negb_false_iff in Efin.
  destruct (accepted_amount_positive x Efin Eleb) as (m & e & Hx).
  eexists. exists m, e. cbn [expenses amount].
  split; [reflexivity|]. split; [exact Hx|].
  split; [|split].
  - intros Hsmall. rewrite Hx in Hsmall |- *. unfold toFixed2.
    cbn [SFabs]. rewrite Hsmall.
    destruct (fixedDigits2_nearest m e) as (Hlo & Hhi & Hn).
    exists (fixedDigits2 (Zpos m) e).
    split; [exact Hlo|]. split; [exact Hhi|].
    cbn [append]. apply ofString_fixed2. exact Hn.
  - intros Hbig Hback. rewrite Hx in Hbig, Hback |- *. unfold toFixed2.
    cbn [SFabs]. rewrite Hbig. exact Hback.
  - intros Htext. unfold x in Hx. rewrite Htext in Hx.
    unfold x. rewrite Htext. vm_compute. reflexivity.
Qed.

End RoundingFacts.

Lemma handleSubmit_stores_amount_rounded_half_up_witness :
  exists payload,
    (handleSubmit sampleDateParse sampleNumberToString "u1"
       "2024-03-02T12:00:00.000Z" (draftOf "Tea" "12.345")).(expenses)
    = payload :: [coffee] /\
    payload.(amount) = parseFloat "12.35".
Proof.
  destruct (handleSubmit_stores_amount_rounded_half_up
              sampleDateParse sampleNumberToString "u1"
              "2024-03-02T12:00:00.000Z" (draftOf "Tea" "12.345") eq_refl)
    as (payload & m & e & Hstore & _ & _ & _ & Hsample).
  exists payload. split; [exact Hstore | apply Hsample; reflexivity].
Defined.

Example twelve_345_is_stored_as_twelve_35 :
  map amount
    (handleSubmit sampleDateParse sampleNumberToString "u1"
       "2024-03-02T12:00:00.000Z" (draftOf "Tea" "12.345")).(expenses)
  = [ofDecimal false 1235 (-2); ofZ 10].
Proof. vm_compute. reflexivity. Qed.


(** ** Loading from storage *)

(** The shape the load effect's guard looks for: an object whose [id],
[description], [category] and [date] are strings and whose [amount] is a
number. No other property is looked at. *)
Definition holdsString (props : list (string * json)) (k : string) : bool :=
  match lookup k props with Some (JStr _) => true | _ => false end.

Definition holdsNumber (props : list (string * json)) (k : string) : bool :=
  match lookup k props with Some (JNum _) => true | _ => false end.

Definition wellShaped (item : json) : bool :=
  match item with
  | JObj props =>
      holdsString props "id" && holdsString props "description" &&
      holdsString props "category" && holdsNumber props "amount" &&
      holdsString props "date"
  | _ => false
  end.

Lemma typeOf_string (v : option json) :
  (typeOf v =? "string")%string = match v with Some (JStr _) => true | _ => false end.
Proof. destruct v as [[]|]; reflexivity. Qed.

Lemma typeOf_number (v : option json) :
  (typeOf v =? "number")%string = match v with Some (JNum _) => true | _ => false end.
Proof. destruct v as [[]|]; reflexivity. Qed.

Lemma isExpense_wellShaped (item : json) :
  item <> JNull -> isExpense item = Normal (wellShaped item).
Proof.
  intros Hnull. destruct item as [|b|x|s|items|props]; try reflexivity.
  - contradiction.
  - unfold isExpense, wellShaped, holdsString, holdsNumber, getField, bind.
    rewrite !typeOf_string, !typeOf_number.
    destruct (lookup "id" props) as [[]|]; try reflexivity.
    destruct (lookup "description" props) as [[]|]; try reflexivity.
    destruct (lookup "category" props) as [[]|]; try reflexivity.
    destruct (lookup "amount" props) as [[]|]; try reflexivity.
Qed.

Lemma isExpense_null : exists reason, isExpense JNull = Throw reason.
Proof. eexists. reflexivity. Qed.

Lemma filterC_filter (A : Type) (f : A -> completion bool) (p : A -> bool)
  (l : list A) :
  (forall x, In x l -> f x = Normal (p x)) -> filterC f l = Normal (filter p l).
Proof.
  induction l as [|x l IH]; intros H; simpl; [reflexivity|].
  rewrite (H x (or_introl eq_refl)). simpl.
  rewrite IH by (intros y Hy; apply H; right; exact Hy). simpl.
  destruct (p x); reflexivity.
Qed.

Lemma filterC_throws (A : Type) (f : A -> completion bool) (l : list A) (x : A) :
  In x l -> (exists reason, f x = Throw reason) ->
  exists reason, filterC f l = Throw reason.
Proof.
  induction l as [|y l IH]; intros Hin Hx; [destruct Hin|]. simpl.
  destruct Hin as [->|Hin].
  - destruct Hx as [r ->]. exists r. reflexivity.
  - destruct (f y) as [keep|r]; simpl; [|exists r; reflexivity].
    destruct (IH Hin Hx) as [r ->]. exists r. reflexivity.
Qed.

Section LoadFacts.
Context {collation : Collation}.
Variable JSON_parse : string -> completion json.

(** The comparator of the load effect's sort, and the order it gives. *)
Definition storedOrder (a b : json) : comparison :=
  signOf (localeCompare (dateOf b) (dateOf a)).

Definition storedDateDescending (a b : json) : Prop :=
  0 <= localeCompare (dateOf a) (dateOf b).

Lemma notAfter_storedOrder (a b : json) :
  notAfter storedOrder a b <-> storedDateDescending a b.
Proof.
  unfold notAfter, storedOrder, storedDateDescending, signOf.
  rewrite Z.compare_gt_iff, localeCompare_nonneg_swap. lia.
Qed.

Lemma storedOrder_total (a b : json) :
  storedOrder a b = Gt -> storedOrder b a <> Gt.
Proof.
  unfold storedOrder, signOf. rewrite !Z.compare_gt_iff. intros H.
  apply localeCompare_swap in H. lia.
Qed.

Lemma storedOrder_trans (a b c : json) :
  notAfter storedOrder a b -> notAfter storedOrder b c -> notAfter storedOrder a c.
Proof.
  rewrite !notAfter_storedOrder. apply localeCompare_nonneg_trans.
Qed.

Lemma load_array (r : string) (items : list json) :
  r <> EmptyString -> JSON_parse r = Normal (JArr items) -> ~ In JNull items ->
  load JSON_parse (Some r) = Array_sort storedOrder (filter wellShaped items).
Proof.
  intros Hr Hparse Hnull. unfold load, loadEffect, loadBody.
  destruct r as [|c r]; [contradiction|]. cbn [JsString.truthy negb].
  rewrite Hparse. cbn [bind].
  rewrite (filterC_filter _ isExpense wellShaped).
  - reflexivity.
  - intros x Hx. apply isExpense_wellShaped. intros ->. contradiction.
Qed.

(** What the load effect does. Loading never raises. An absent or empty
    slot, a text that does not parse, and a parsed value that is not an
    array all give the empty store. From an array with no [null] entry,
    the store is made of exactly the entries whose [id], [description],
    [category] and [date] are strings and whose [amount] is a number,
    whatever else they hold or lack ([createdAt] is not looked at), in
    date-descending order. *)
Theorem load_keeps_exactly_well_shaped (raw : option string) :
  (exists l, loadEffect JSON_parse raw [] = Normal l) /\
  (raw = None \/ raw = Some EmptyString -> load JSON_parse raw = []) /\
  (forall r reason, raw = Some r -> JSON_parse r = Throw reason ->
     load JSON_parse raw = []) /\
  (forall r v, raw = Some r -> JSON_parse r = Normal v ->
     (forall items, v <> JArr items) -> load JSON_parse raw = []) /\
  (forall r items, raw = Some r -> r <> EmptyString ->
     JSON_parse r = Normal (JArr items) -> ~ In JNull items ->
     Permutation (load JSON_parse raw) (filter wellShaped items) /\
     (forall item, In item (load JSON_parse raw) <->
                   In item items /\ wellShaped item = true) /\
     StronglySorted storedDateDescending (load JSON_parse raw)).
Proof.
  split; [eexists; reflexivity|].
  split; [intros [->| ->]; reflexivity|].
  split; [|split].
  - intros r reason -> Hparse. unfold load, loadEffect, loadBody.
    destruct (negb (JsString.truthy r)); [reflexivity|].
    rewrite Hparse. reflexivity.
  - intros r v -> Hparse Harr. unfold load, loadEffect, loadBody.
    destruct (negb (JsString.truthy r)); [reflexivity|].
    rewrite Hparse. cbn [bind].
    destruct v; try reflexivity. exfalso. exact (Harr _ eq_refl).
  - intros r items -> Hr Hparse Hnull.
    rewrite (load_array r items Hr Hparse Hnull).
    split; [apply Array_sort_perm|]. split.
    + intros item. rewrite Array_sort_In, filter_In. tauto.
    + eapply StronglySorted_weaken; [intros x y; apply notAfter_storedOrder|].
      apply Array_sort_sorted; [exact storedOrder_total | exact storedOrder_trans].
Qed.

End LoadFacts.

(** A stand-in for [JSON.parse] to compute with: a table from slot texts
    to the values they denote. *)
Definition complete : json := toObject keyboard.

Definition withoutCreatedAt : json :=
  JObj [ ("id", JStr "a1"); ("description", JStr "Coffee beans");
         ("category", JStr "Food"); ("amount", JNum (ofZ 10));
         ("date", JStr "2024-03-01") ].

Definition illTyped : json := JObj [ ("id", JNum (ofZ 1)); ("amount", JStr "5") ].

Definition sampleParse (text : string) : completion json :=
  if (text =? "mixed")%string
  then Normal (JArr [withoutCreatedAt; illTyped; JStr "x"; complete])
  else if (text =? "holed")%string then Normal (JArr [JNull; complete])
  else if (text =? "object")%string then Normal (JObj [])
  else Throw "SyntaxError".

Lemma load_keeps_exactly_well_shaped_witness :
  Permutation
    (load (collation := codeUnitCollation) sampleParse (Some "mixed"))
    (filter wellShaped [withoutCreatedAt; illTyped; JStr "x"; complete]).
Proof.
  refine (proj1 (proj2 (proj2 (proj2 (proj2
            (load_keeps_exactly_well_shaped (collation := codeUnitCollation)
               sampleParse (Some "mixed"))))) "mixed" _ eq_refl _ eq_refl _)).
  - discriminate.
  - intros [H|[H|[H|[H|[]]]]]; discriminate H.
Defined.

(** C1. The guard of the load effect falls short of "malformed entries
    are dropped, well-formed ones kept" on two stored texts. Where a
    [null] entry stands beside a complete record, the guard throws on
    the [null] ([item.id] of [null]), the handler swallows the exception,
    and the store stays empty: the complete record is lost as well.
    Where an entry lacks [createdAt], which the type [Expense] requires
    and the guard is declared to establish ([item is Expense]), the
    entry is kept: the guard does not read that property. *)
Theorem load_guard_misses_null_and_createdAt :
  (sampleParse "holed" = Normal (JArr [JNull; complete]) /\
   wellShaped complete = true /\
   load (collation := codeUnitCollation) sampleParse (Some "holed") = []) /\
  (sampleParse "mixed"
   = Normal (JArr [withoutCreatedAt; illTyped; JStr "x"; complete]) /\
   getField withoutCreatedAt "createdAt" = Normal None /\
   load (collation := codeUnitCollation) sampleParse (Some "mixed")
   = [complete; withoutCreatedAt]).
Proof. repeat split; vm_compute; reflexivity. Qed.

(** ** Saving, then loading *)

(** A number JSON can write: finite, and not negative zero. *)
Definition jsonNumber (x : number) : bool :=
  match x with
  | S754_finite _ _ _ => true
  | S754_zero s => negb s
  | S754_infinity _ | S754_nan => false
  end.

Lemma wellShaped_toObject (e : Expense) : wellShaped (toObject e) = true.
Proof. reflexivity. Qed.

Lemma toObject_not_null (e : Expense) : toObject e <> JNull.
Proof. discriminate. Qed.

Lemma jsonify_toObject (e : Expense) :
  jsonNumber e.(amount) = true -> jsonify (toObject e) = toObject e.
Proof.
  intros Hx. unfold toObject. cbn [jsonify map app fst snd].
  assert (Ex : jsonify (JNum e.(amount)) = JNum e.(amount)).
  { destruct e.(amount) as [[]| | |]; try discriminate Hx; reflexivity. }
  destruct e.(note); cbn [jsonify map app fst snd] in *; rewrite Ex; reflexivity.
Qed.

Lemma toObject_injective (e e' : Expense) : toObject e = toObject e' -> e = e'.
Proof.
  destruct e as [i d c a t n k], e' as [i' d' c' a' t' n' k'].
  unfold toObject. cbn [id description category amount date note createdAt].
  destruct n, n'; cbn [app]; intros H; try discriminate H;
    injection H; intros; subst; reflexivity.
Qed.

Section RoundTrip.
Context {collation : Collation}.
Variable JSON_parse : string -> completion json.
Variable JSON_stringify : json -> string.

(** What is asked of the host for a value [v]: the text written for [v]
    is not empty, and reading it gives [v] as JSON can hold it. *)
Definition readsBack (v : json) : Prop :=
  JSON_stringify v <> EmptyString /\
  JSON_parse (JSON_stringify v) = Normal (jsonify v).

(** C6, as the code has it. When every amount is a number JSON can write
    and the host reads back what it wrote, loading what was saved gives
    the records that were saved, each with every field as it was, in
    date-descending order. *)
Theorem save_then_load_round_trip (records : list Expense) :
  Forall (fun e => jsonNumber e.(amount) = true) records ->
  readsBack (JArr (map toObject records)) ->
  let loaded := load JSON_parse (Some (save JSON_stringify records)) in
  Permutation loaded (map toObject records) /\
  (forall e, In (toObject e) loaded <-> In e records) /\
  StronglySorted storedDateDescending loaded.
Proof.
  intros Hnum [Hne Hback] loaded.
  assert (Hsame : map jsonify (map toObject records) = map toObject records).
  { rewrite map_map. apply map_ext_in. intros e He.
    rewrite Forall_forall in Hnum. apply jsonify_toObject, Hnum, He. }
  cbn [jsonify] in Hback. rewrite Hsame in Hback.
  assert (Hnull : ~ In JNull (map toObject records)).
  { rewrite in_map_iff. intros (e & He & _). discriminate He. }
  assert (Hall : filter wellShaped (map toObject records) = map toObject records).
  { apply filter_id. intros x Hx. apply in_map_iff in Hx.
    destruct Hx as (e & <- & _). reflexivity. }
  assert (Hload : loaded = Array_sort storedOrder (map toObject records)).
  { unfold loaded, save.
    rewrite (load_array JSON_parse _ _ Hne Hback Hnull), Hall. reflexivity. }
  rewrite Hload. split; [apply Array_sort_perm|]. split.
  - intros e. rewrite Array_sort_In, in_map_iff. split.
    + intros (e' & He' & Hin). apply toObject_injective in He'. congruence.
    + intros Hin. exists e. auto.
  - eapply StronglySorted_weaken; [intros x y; apply notAfter_storedOrder|].
    apply Array_sort_sorted; [exact storedOrder_total | exact storedOrder_trans].
Qed.

End RoundTrip.

(** A stand-in for the host's [JSON.stringify] and [JSON.parse] to
    compute with: a slot text chosen by the number of records written,
    and the values those texts denote. *)
Definition lavish : Expense :=
  {| id := "d4"; description := "Yacht"; category := "Leisure";
     amount := Infinity; date := "2024-03-03"; note := None;
     createdAt := "2024-03-03T08:00:00.000Z" |}.

Definition sampleStringify (v : json) : string :=
  match v with
  | JArr [_] => "one"
  | JArr [_; _] => "two"
  | _ => "other"
  end.

Definition sampleReader (text : string) : completion json :=
  if (text =? "one")%string then Normal (jsonify (JArr [toObject lavish]))
  else if (text =? "two")%string
  then Normal (jsonify (JArr [toObject coffee; toObject keyboard]))
  else Throw "SyntaxError".

Lemma save_then_load_round_trip_witness :
  Permutation
    (load (collation := codeUnitCollation) sampleReader
       (Some (save sampleStringify [coffee; keyboard])))
    (map toObject [coffee; keyboard]).
Proof.
  refine (proj1 (save_then_load_round_trip (collation := codeUnitCollation)
                   sampleReader sampleStringify [coffee; keyboard] _ _)).
  - repeat constructor.
  - split; [discriminate | reflexivity].
Defined.

(** The round trip loses a record whose amount is infinite: it is written
    as [null], and the guard of the load drops it. *)
Lemma save_then_load_drops_infinite_amount :
  readsBack sampleReader sampleStringify (JArr (map toObject [lavish])) /\
  wellShaped (toObject lavish) = true /\
  load (collation := codeUnitCollation) sampleReader
    (Some (save sampleStringify [lavish])) = [].
Proof.
  split; [split; [discriminate | reflexivity]|].
  split; vm_compute; reflexivity.
Qed.


(** ** Numbers: the sign of a difference *)

(** Rounding never turns a non-zero number into zero nor changes its sign. *)

Definition minExponent : Z := emin prec emax.

Lemma digits2_pos_lower (m : positive) :
  2 ^ (Zpos (digits2_pos m) - 1) <= Zpos m.
Proof.
  induction m as [m IH|m IH|]; cbn [digits2_pos].
  - rewrite Pos2Z.inj_succ. replace (Z.succ (Zpos (digits2_pos m)) - 1)
      with (Z.succ (Zpos (digits2_pos m) - 1)) by lia.
    rewrite Z.pow_succ_r by lia. lia.
  - rewrite Pos2Z.inj_succ. replace (Z.succ (Zpos (digits2_pos m)) - 1)
      with (Z.succ (Zpos (digits2_pos m) - 1)) by lia.
    rewrite Z.pow_succ_r by lia. lia.
  - reflexivity.
Qed.

Lemma shr_1_m (r : shr_record) : 0 <= shr_m r -> shr_m (shr_1 r) = shr_m r / 2.
Proof.
  destruct r as [m rb sb]. cbn [shr_m]. intros Hm. unfold shr_1.
  destruct m as [|[p|p|]|p]; cbn [shr_m]; try lia; try reflexivity.
  - apply Z.div_unique with 1; lia.
  - apply Z.div_unique with 0; lia.
Qed.

Lemma iter_shr_1_m (p : positive) :
  forall r, 0 <= shr_m r -> shr_m (SpecFloat.iter_pos shr_1 p r) = shr_m r / 2 ^ Zpos p.
Proof.
  induction p as [p IH|p IH|]; intros r Hr; cbn [SpecFloat.iter_pos].
  - assert (H1 : 0 <= shr_m (shr_1 r)).
    { rewrite shr_1_m by exact Hr. apply Z.div_pos; lia. }
    assert (H2 : 0 <= shr_m (SpecFloat.iter_pos shr_1 p (shr_1 r))).
    { rewrite IH by exact H1. apply Z.div_pos; [exact H1|]. apply Z.pow_pos_nonneg; lia. }
    rewrite IH by exact H2. rewrite IH by exact H1. rewrite shr_1_m by exact Hr.
    assert (E : 2 ^ Zpos p~1 = 2 * (2 ^ Zpos p * 2 ^ Zpos p)).
    { rewrite <- Z.pow_add_r, <- Z.pow_succ_r by lia. f_equal. lia. }
    pose proof (Z.pow_pos_nonneg 2 (Zpos p) ltac:(lia) ltac:(lia)) as Hp.
    rewrite E. rewrite !Z.div_div by lia.
    f_equal; try ring.
  - assert (H2 : 0 <= shr_m (SpecFloat.iter_pos shr_1 p r)).
    { rewrite IH by exact Hr. apply Z.div_pos; [exact Hr|]. apply Z.pow_pos_nonneg; lia. }
    rewrite IH by exact H2. rewrite IH by exact Hr.
    assert (E : 2 ^ Zpos p~0 = 2 ^ Zpos p * 2 ^ Zpos p).
    { rewrite <- Z.pow_add_r by lia. f_equal. lia. }
    pose proof (Z.pow_pos_nonneg 2 (Zpos p) ltac:(lia) ltac:(lia)) as Hp.
    rewrite E. rewrite Z.div_div by lia. reflexivity.
  - rewrite shr_1_m by exact Hr. reflexivity.
Qed.

Lemma shr_record_of_loc_m (m : Z) (l : location) : shr_m (shr_record_of_loc m l) = m.
Proof. destruct l as [|[]]; reflexivity. Qed.

(** One rounding shift keeps a positive mantissa positive and leaves the
    exponent at or above the least exponent. *)
Lemma shr_fexp_positive (m : positive) (e : Z) (l : location) :
  minExponent <= e ->
  0 < shr_m (fst (shr_fexp prec emax (Zpos m) e l)) /\
  minExponent <= snd (shr_fexp prec emax (Zpos m) e l).
Proof.
  unfold minExponent, shr_fexp, shr, fexp, emin, prec, emax. intros He.
  cbn [Zdigits2].
  pose proof (digits2_pos_lower m) as Hd.
  destruct (Z.max (Zpos (digits2_pos m) + e - 53) (3 - 1024 - 53) - e) as [|n|n] eqn:En;
    cbn [fst snd]; rewrite ?shr_record_of_loc_m; try (split; lia).
  rewrite iter_shr_1_m by (rewrite shr_record_of_loc_m; lia).
  rewrite shr_record_of_loc_m. split; [|lia].
  assert (Hn : Zpos n <= Zpos (digits2_pos m) - 1) by lia.
  assert (Hpow : 2 ^ Zpos n <= Zpos m).
  { apply Z.le_trans with (2 ^ (Zpos (digits2_pos m) - 1)); [|exact Hd].
    apply Z.pow_le_mono_r; lia. }
  apply Z.div_str_pos. split; [apply Z.pow_pos_nonneg; lia | exact Hpow].
Qed.

Definition signedNonZero (s : bool) (x : number) : Prop :=
  (exists m e, x = S754_finite s m e /\ minExponent <= e) \/ x = S754_infinity s.

Lemma binary_round_aux_sign (s : bool) (m : positive) (e : Z) (l : location) :
  minExponent <= e ->
  signedNonZero s (binary_round_aux prec emax s (Zpos m) e l).
Proof.
  intros He. unfold binary_round_aux.
  pose proof (shr_fexp_positive m e l He) as [H1 H1e].
  destruct (shr_fexp prec emax (Zpos m) e l) as [mrs' e'] eqn:E1. cbn [fst snd] in *.
  set (m1 := round_nearest_even (shr_m mrs') (loc_of_shr_record mrs')).
  assert (Hm1 : 0 < m1).
  { unfold m1, round_nearest_even.
    destruct (loc_of_shr_record mrs') as [|[]]; try lia.
    destruct (Z.even (shr_m mrs')); lia. }
  destruct m1 as [|p1|p1] eqn:Em1; try lia.
  pose proof (shr_fexp_positive p1 e' loc_Exact H1e) as [H2 H2e].
  destruct (shr_fexp prec emax (Zpos p1) e' loc_Exact) as [mrs'' e''] eqn:E2.
  cbn [fst snd] in *.
  destruct (shr_m mrs'') as [|p2|p2]; try lia.
  destruct (e'' <=? emax - prec); [left; eauto | right; reflexivity].
Qed.

Lemma shl_align_exponent (m : positive) (e e' : Z) :
  minExponent <= e -> minExponent <= e' ->
  minExponent <= snd (shl_align m e e').
Proof.
  intros He He'. unfold shl_align. destruct (e' - e); cbn [snd]; lia.
Qed.

Lemma binary_round_sign (s : bool) (m : positive) (e : Z) :
  minExponent <= e -> signedNonZero s (binary_round prec emax s m e).
Proof.
  intros He. unfold binary_round.
  pose proof (shl_align_exponent m e (fexp prec emax (Zpos (digits2_pos m) + e)) He) as Hs.
  destruct (shl_align m e (fexp prec emax (Zpos (digits2_pos m) + e))) as [mz ez].
  cbn [snd] in Hs. apply binary_round_aux_sign. apply Hs.
  unfold fexp, minExponent. lia.
Qed.

Definition exponentOk (x : number) : Prop :=
  match x with
  | S754_finite _ _ e => minExponent <= e
  | _ => True
  end.

Lemma isDouble_exponentOk (x : number) : isDouble x = true -> exponentOk x.
Proof.
  destruct x as [s|s| |s m e]; cbn [exponentOk]; try exact (fun _ => I).
  unfold isDouble, valid_binary, bounded, canonical_mantissa, fexp, minExponent.
  intros H. apply andb_true_iff in H. destruct H as [H _].
  apply Z.eqb_eq in H. lia.
Qed.

Lemma Pos_iter_xO (m d : positive) : Zpos (Pos.iter xO m d) = Zpos m * 2 ^ Zpos d.
Proof.
  induction d as [|d IH] using Pos.peano_ind.
  - cbn [Pos.iter]. lia.
  - rewrite Pos.iter_succ, Pos2Z.inj_succ, Z.pow_succ_r by lia.
    rewrite Pos2Z.inj_xO, IH. ring.
Qed.

Lemma shl_align_value (m : positive) (e ez : Z) :
  ez <= e -> Zpos (fst (shl_align m e ez)) = Zpos m * 2 ^ (e - ez).
Proof.
  intros H. unfold shl_align. destruct (ez - e) as [|d|d] eqn:E; cbn [fst].
  - replace (e - ez) with 0 by lia. lia.
  - lia.
  - rewrite Pos_iter_xO. f_equal. f_equal. lia.
Qed.

(** The value of a finite number over a common power of two. *)
Lemma value_scaled (s : bool) (m : positive) (e L : Z) :
  L <= e -> L <= 0 ->
  (value (S754_finite s m e) ==
   Qmake (cond_Zopp s (Zpos m * 2 ^ (e - L))) (Z.to_pos (2 ^ (- L))))%Q.
Proof.
  intros HLe HL0. unfold value, Qeq.
  assert (HpL : 0 < 2 ^ (- L)) by (apply Z.pow_pos_nonneg; lia).
  destruct (0 <=? e) eqn:He; cbn [Qnum Qden inject_Z].
  - apply Z.leb_le in He. rewrite Z2Pos.id by exact HpL.
    replace (e - L) with (e + - L) by lia. rewrite Z.pow_add_r by lia.
    destruct s; cbn [cond_Zopp]; ring.
  - apply Z.leb_gt in He.
    assert (Hpe : 0 < 2 ^ (- e)) by (apply Z.pow_pos_nonneg; lia).
    rewrite !Z2Pos.id by assumption.
    replace (- L) with ((e - L) + - e) by lia. rewrite Z.pow_add_r by lia.
    destruct s; cbn [cond_Zopp]; ring.
Qed.

Lemma value_zero (s : bool) : value (S754_zero s) = 0%Q.
Proof. reflexivity. Qed.

Lemma value_sign (s : bool) (m : positive) (e : Z) :
  (value (S754_finite s m e) ?= 0)%Q = if s then Lt else Gt.
Proof.
  rewrite (Qcompare_comp _ _ (value_scaled s m e (Z.min e 0) ltac:(lia) ltac:(lia))
                         0%Q 0%Q (Qeq_refl 0)).
  unfold Qcompare. cbn [Qnum Qden].
  assert (0 < 2 ^ (e - Z.min e 0)) by (apply Z.pow_pos_nonneg; lia).
  destruct s; cbn [cond_Zopp]; [apply Z.compare_lt_iff | apply Z.compare_gt_iff]; nia.
Qed.

(** The sign of a difference of finite numbers is the comparison of their
    values: a non-zero difference is never rounded to zero. *)
Lemma SortCompare_sub (a b : number) :
  isFinite a = true -> isFinite b = true -> exponentOk a -> exponentOk b ->
  SortCompare (sub a b) = (value a ?= value b)%Q.
Proof.
  destruct a as [sa|sa| |sa ma ea]; try discriminate;
    destruct b as [sb|sb| |sb mb eb]; try discriminate; intros _ _ Ha Hb.
  - destruct sa, sb; reflexivity.
  - cbn [sub SFsub SortCompare]. rewrite value_zero.
    rewrite <- Qcompare_antisym, value_sign. destruct sb; reflexivity.
  - cbn [sub SFsub SortCompare]. rewrite value_zero. rewrite value_sign.
    reflexivity.
  - cbn [exponentOk] in Ha, Hb. unfold sub, SFsub.
    set (ez := Z.min ea eb). set (L := Z.min ez 0).
    rewrite (Qcompare_comp _ _ (value_scaled sa ma ea L ltac:(lia) ltac:(lia))
                           _ _ (value_scaled sb mb eb L ltac:(lia) ltac:(lia))).
    unfold Qcompare. cbn [Qnum Qden].
    rewrite !shl_align_value by lia.
    set (A := cond_Zopp sa (Zpos ma * 2 ^ (ea - ez))).
    set (B := cond_Zopp sb (Zpos mb * 2 ^ (eb - ez))).
    assert (Hk : 0 < 2 ^ (ez - L)) by (apply Z.pow_pos_nonneg; lia).
    assert (HA : cond_Zopp sa (Zpos ma * 2 ^ (ea - L)) = A * 2 ^ (ez - L)).
    { unfold A. replace (ea - L) with ((ea - ez) + (ez - L)) by lia.
      rewrite Z.pow_add_r by lia. destruct sa; cbn [cond_Zopp]; ring. }
    assert (HB : cond_Zopp sb (Zpos mb * 2 ^ (eb - L)) = B * 2 ^ (ez - L)).
    { unfold B. replace (eb - L) with ((eb - ez) + (ez - L)) by lia.
      rewrite Z.pow_add_r by lia. destruct sb; cbn [cond_Zopp]; ring. }
    rewrite HA, HB.
    assert (Hd : 0 < Zpos (Z.to_pos (2 ^ (- L)))) by lia.
    assert (Hez : minExponent <= ez) by lia.
    set (D := Zpos (Z.to_pos (2 ^ (- L)))) in *.
    set (K := 2 ^ (ez - L)) in *.
    unfold binary_normalize. destruct (A - B) as [|p|p] eqn:EAB.
    + cbn [SortCompare]. symmetry. apply Z.compare_eq_iff.
      replace A with B by lia. reflexivity.
    + assert (Hlt : B * K * D < A * K * D).
      { apply Z.mul_lt_mono_pos_r; [exact Hd|].
        apply Z.mul_lt_mono_pos_r; [exact Hk | lia]. }
      destruct (binary_round_sign false p ez Hez) as [(m' & e' & -> & _)| ->];
        cbn [SortCompare]; symmetry; apply Z.compare_gt_iff; exact Hlt.
    + assert (Hlt : A * K * D < B * K * D).
      { apply Z.mul_lt_mono_pos_r; [exact Hd|].
        apply Z.mul_lt_mono_pos_r; [exact Hk | lia]. }
      destruct (binary_round_sign true p ez Hez) as [(m' & e' & -> & _)| ->];
        cbn [SortCompare]; symmetry; apply Z.compare_lt_iff; exact Hlt.
Qed.

(** A finite number whose exponent is not below the least one. *)
Definition good (x : number) : bool :=
  match x with
  | S754_zero _ => true
  | S754_finite _ _ e => minExponent <=? e
  | S754_infinity _ | S754_nan => false
  end.

Lemma good_iff (x : number) : good x = true <-> isFinite x = true /\ exponentOk x.
Proof.
  destruct x as [s|s| |s m e]; cbn [good isFinite exponentOk];
    rewrite ?Z.leb_le; intuition discriminate.
Qed.

Lemma SortCompare_sub_good (a b : number) :
  good a = true -> good b = true ->
  SortCompare (sub a b) = (value a ?= value b)%Q.
Proof.
  rewrite !good_iff. intros [Ha Ha'] [Hb Hb']. apply SortCompare_sub; assumption.
Qed.

Lemma add_exponentOk (a b : number) :
  exponentOk a -> exponentOk b -> exponentOk (add a b).
Proof.
  destruct a as [sa|sa| |sa ma ea]; destruct b as [sb|sb| |sb mb eb];
    intros Ha Hb; try exact I; try assumption.
  - destruct sa, sb; exact I.
  - destruct sa, sb; exact I.
  - cbn [exponentOk] in Ha, Hb. unfold add, SFadd, binary_normalize.
    set (M := cond_Zopp sa (Zpos (fst (shl_align ma ea (Z.min ea eb)))) +
              cond_Zopp sb (Zpos (fst (shl_align mb eb (Z.min ea eb))))).
    assert (Hez : minExponent <= Z.min ea eb) by lia.
    destruct M as [|p|p]; [exact I| |].
    + destruct (binary_round_sign false p _ Hez) as [(m' & e' & -> & He')| ->];
        [exact He' | exact I].
    + destruct (binary_round_sign true p _ Hez) as [(m' & e' & -> & He')| ->];
        [exact He' | exact I].
Qed.

(** Small integers are doubles: reading one back gives the integer. *)

Lemma digits2_pos_upper (m : positive) : Zpos m < 2 ^ Zpos (digits2_pos m).
Proof.
  induction m as [m IH|m IH|]; cbn [digits2_pos]; try reflexivity;
    rewrite Pos2Z.inj_succ, Z.pow_succ_r by lia; lia.
Qed.

Lemma digits2_pos_shift (m k : positive) :
  Zpos (digits2_pos (Pos.iter xO m k)) = Zpos (digits2_pos m) + Zpos k.
Proof.
  induction k as [|k IH] using Pos.peano_ind.
  - cbn [Pos.iter digits2_pos]. lia.
  - rewrite Pos.iter_succ. cbn [digits2_pos]. rewrite Pos2Z.inj_succ, IH. lia.
Qed.

Lemma binary_round_aux_exact (m : positive) (e : Z) :
  Zpos (digits2_pos m) = 53 -> -1074 <= e <= 971 ->
  binary_round_aux prec emax false (Zpos m) e loc_Exact = S754_finite false m e.
Proof.
  intros Hd He. unfold binary_round_aux.
  assert (Hshr : shr_fexp prec emax (Zpos m) e loc_Exact
                 = ({| shr_m := Zpos m; shr_r := false; shr_s := false |}, e)).
  { unfold shr_fexp, fexp, emin, prec, emax. cbn [Zdigits2]. rewrite Hd.
    replace (Z.max (53 + e - 53) (3 - 1024 - 53) - e) with 0 by lia.
    reflexivity. }
  rewrite Hshr. cbn [shr_m loc_of_shr_record round_nearest_even]. rewrite Hshr.
  cbn [shr_m]. unfold emax, prec.
  replace (e <=? 1024 - 53) with true by (symmetry; apply Z.leb_le; lia).
  reflexivity.
Qed.

Lemma truncate_ofZ (z : Z) : 0 <= z < 2 ^ 53 -> truncate (ofZ z) = Some z.
Proof.
  intros Hz. destruct z as [|p|p]; [reflexivity| |lia].
  unfold ofZ, binary_normalize, binary_round.
  pose proof (digits2_pos_lower p) as Hlo.
  pose proof (digits2_pos_upper p) as Hup.
  set (d := Zpos (digits2_pos p)) in *.
  assert (Hd : 1 <= d <= 53).
  { split; [unfold d; lia|].
    destruct (Z.le_gt_cases d 53) as [H|H]; [exact H|].
    assert (2 ^ 53 <= 2 ^ (d - 1)) by (apply Z.pow_le_mono_r; lia). lia. }
  unfold fexp, emin, prec, emax.
  replace (Z.max (d + 0 - 53) (3 - 1024 - 53)) with (d - 53) by lia.
  unfold shl_align. destruct (d - 53 - 0) as [|k|k] eqn:Ek; try lia.
  - rewrite binary_round_aux_exact by (fold d; lia).
    cbn [truncate Z.leb Z.compare cond_Zopp]. f_equal. lia.
  - assert (Hk : Zpos k = 53 - d) by lia.
    rewrite binary_round_aux_exact
      by (try rewrite digits2_pos_shift; fold d; lia).
    cbn [truncate cond_Zopp].
    replace (0 <=? d - 53) with false by (symmetry; apply Z.leb_gt; lia).
    rewrite Pos_iter_xO. f_equal.
    replace (- (d - 53)) with (Zpos k) by lia.
    apply Z.div_mul. apply Z.pow_nonzero; lia.
Qed.

(** ** Dates: the day of the month *)

Module JsDateFacts.
Import JsDate.

Lemma DayFromYear_estimate (y : Z) :
  146097 * (y - 1970) - 607 < 400 * DayFromYear y /\
  400 * DayFromYear y < 146097 * (y - 1970) + 593.
Proof.
  unfold DayFromYear. 
  pose proof (Z.div_mod (y - 1969) 4 ltac:(lia)).
  pose proof (Z.mod_pos_bound (y - 1969) 4 ltac:(lia)).
  pose proof (Z.div_mod (y - 1901) 100 ltac:(lia)).
  pose proof (Z.mod_pos_bound (y - 1901) 100 ltac:(lia)).
  pose proof (Z.div_mod (y - 1601) 400 ltac:(lia)).
  pose proof (Z.mod_pos_bound (y - 1601) 400 ltac:(lia)).
  lia.
Qed.

Lemma YearFromDay_spec (d : Z) :
  DayFromYear (YearFromDay d) <= d < DayFromYear (YearFromDay d + 1).
Proof.
  unfold YearFromDay.
  set (y := 1970 + d * 400 / 146097).
  pose proof (Z.div_mod (d * 400) 146097 ltac:(lia)) as Hdm.
  pose proof (Z.mod_pos_bound (d * 400) 146097 ltac:(lia)) as Hr.
  assert (Hy : 146097 * (y - 1970) <= d * 400 < 146097 * (y - 1970) + 146097).
  { unfold y. lia. }
  pose proof (DayFromYear_estimate (y - 1)) as Hlo.
  pose proof (DayFromYear_estimate (y + 1 + 1)) as Hhi.
  destruct (DayFromYear (y + 1) <=? d) eqn:H1.
  - apply Z.leb_le in H1. lia.
  - apply Z.leb_gt in H1. destruct (DayFromYear y <=? d) eqn:H2.
    + apply Z.leb_le in H2. lia.
    + apply Z.leb_gt in H2. replace (y - 1 + 1) with y by lia. lia.
Qed.

Lemma DaysInYear_step (y : Z) : DayFromYear (y + 1) - DayFromYear y = DaysInYear y.
Proof.
  unfold DayFromYear, DaysInYear.
  destruct (y mod 4 =? 0) eqn:H4; [apply Z.eqb_eq in H4 | apply Z.eqb_neq in H4];
  destruct (y mod 100 =? 0) eqn:H100; [apply Z.eqb_eq in H100 | apply Z.eqb_neq in H100| apply Z.eqb_eq in H100 | apply Z.eqb_neq in H100];
  destruct (y mod 400 =? 0) eqn:H400; [apply Z.eqb_eq in H400 | apply Z.eqb_neq in H400| apply Z.eqb_eq in H400 | apply Z.eqb_neq in H400| apply Z.eqb_eq in H400 | apply Z.eqb_neq in H400| apply Z.eqb_eq in H400 | apply Z.eqb_neq in H400];
  cbn [negb]; Z.to_euclidean_division_equations; lia.
Qed.

Lemma DayFromYear_increasing (y y' : Z) : y < y' -> DayFromYear y + 365 <= DayFromYear y'.
Proof.
  intros H. unfold DayFromYear. Z.to_euclidean_division_equations. lia.
Qed.

Lemma YearFromDay_unique (y d : Z) :
  DayFromYear y <= d < DayFromYear (y + 1) -> YearFromDay d = y.
Proof.
  intros Hy. pose proof (YearFromDay_spec d) as Hs.
  destruct (Z.lt_trichotomy (YearFromDay d) y) as [H|[H|H]]; [|exact H|].
  - pose proof (DayFromYear_increasing (YearFromDay d) y H).
    destruct (Z.eq_dec (YearFromDay d + 1) y) as [E|E].
    + rewrite E in Hs. lia.
    + pose proof (DayFromYear_increasing (YearFromDay d + 1) y ltac:(lia)). lia.
  - destruct (Z.eq_dec (y + 1) (YearFromDay d)) as [E|E].
    + rewrite <- E in Hs. lia.
    + pose proof (DayFromYear_increasing (y + 1) (YearFromDay d) ltac:(lia)). lia.
Qed.

Lemma DaysInYear_cases (y : Z) : DaysInYear y = 365 \/ DaysInYear y = 366.
Proof.
  unfold DaysInYear.
  destruct (y mod 4 =? 0), (y mod 100 =? 0), (y mod 400 =? 0); cbn [negb]; auto.
Qed.

Lemma DayWithinYear_range (d : Z) :
  0 <= DayWithinYear d < DaysInYear (YearFromDay d).
Proof.
  unfold DayWithinYear. pose proof (YearFromDay_spec d).
  pose proof (DaysInYear_step (YearFromDay d)). lia.
Qed.

(** [getDate] of a valid date is a day of the month. *)
Lemma DateFromDay_range (d : Z) : 1 <= DateFromDay d <= 31.
Proof.
  unfold DateFromDay, MonthFromDay, InLeapYear.
  pose proof (DayWithinYear_range d) as Hw.
  destruct (DaysInYear_cases (YearFromDay d)) as [E|E]; rewrite E in *;
    cbn [Z.eqb Pos.eqb];
    repeat match goal with
           | |- context [?a <? ?b] =>
               destruct (Z.ltb_spec a b); cbn [monthStart]
           end; lia.
Qed.

(** The calendar, as the claim words it. *)
Definition isLeapYear (y : Z) : bool :=
  (y mod 4 =? 0) && (negb (y mod 100 =? 0) || (y mod 400 =? 0)).

Definition daysInCalendarMonth (y m : Z) : Z :=
  if m =? 2 then (if isLeapYear y then 29 else 28)
  else if (m =? 4) || (m =? 6) || (m =? 9) || (m =? 11) then 30
  else 31.

Lemma isLeapYear_DaysInYear (y : Z) : isLeapYear y = (DaysInYear y =? 366).
Proof.
  unfold DaysInYear, isLeapYear.
  destruct (y mod 4 =? 0), (y mod 100 =? 0), (y mod 400 =? 0); reflexivity.
Qed.

Lemma month_cases (m : Z) :
  1 <= m <= 12 ->
  m = 1 \/ m = 2 \/ m = 3 \/ m = 4 \/ m = 5 \/ m = 6 \/ m = 7 \/ m = 8 \/
  m = 9 \/ m = 10 \/ m = 11 \/ m = 12.
Proof. lia. Qed.

Lemma DateFromDay_in_year (y w : Z) :
  0 <= w < DaysInYear y ->
  DateFromDay (DayFromYear y + w) =
  let leap := if DaysInYear y =? 366 then 1 else 0 in
  w - monthStart leap
        (if w <? 31 then 0 else if w <? 59 + leap then 1
         else if w <? 90 + leap then 2 else if w <? 120 + leap then 3
         else if w <? 151 + leap then 4 else if w <? 181 + leap then 5
         else if w <? 212 + leap then 6 else if w <? 243 + leap then 7
         else if w <? 273 + leap then 8 else if w <? 304 + leap then 9
         else if w <? 334 + leap then 10 else 11) + 1.
Proof.
  intros Hw. pose proof (DaysInYear_step y) as Hstep.
  assert (Hyear : YearFromDay (DayFromYear y + w) = y)
    by (apply YearFromDay_unique; lia).
  unfold DateFromDay, MonthFromDay, InLeapYear, DayWithinYear.
  rewrite Hyear.
  replace (DayFromYear y + w - DayFromYear y) with w by lia. reflexivity.
Qed.

(** Day 0 of the month after month [m] is the last day of month [m]. *)
Lemma DateFromDay_end_of_month (y m : Z) :
  1 <= m <= 12 -> DateFromDay (MakeDay y m 0) = daysInCalendarMonth y m.
Proof.
  intros Hm.
  pose proof (DaysInYear_step y) as Hstep.
  unfold daysInCalendarMonth, MakeDay. rewrite isLeapYear_DaysInYear.
  destruct (month_cases m Hm)
    as [->|[->|[->|[->|[->|[->|[->|[->|[->|[->|[->| ->]]]]]]]]]]].
  12: {
    change (12 / 12) with 1. change (12 mod 12) with 0. cbn [monthStart].
    replace (DayFromYear (y + 1) + 0 + 0 - 1)
      with (DayFromYear y + (DaysInYear y - 1)) by lia.
    destruct (DaysInYear_cases y) as [E|E];
      rewrite DateFromDay_in_year by lia; rewrite E; reflexivity. }
  all: match goal with
       | |- DateFromDay (DayFromYear (_ + ?k / 12) + _ + 0 - 1) = _ =>
           change (k / 12) with 0; change (k mod 12) with k
       end;
       replace (y + 0) with y by lia;
       destruct (DaysInYear_cases y) as [E|E]; rewrite E;
       cbn [Z.eqb Pos.eqb monthStart];
       match goal with
       | |- DateFromDay (DayFromYear _ + ?a + 0 - 1) = _ =>
           replace (DayFromYear y + a + 0 - 1) with (DayFromYear y + (a - 1)) by lia;
           rewrite DateFromDay_in_year by (rewrite E; lia); rewrite E; reflexivity
       end.
Qed.

End JsDateFacts.


(** ** The daily average *)

Import JsDate JsDateFacts NumberFormat NumberFormatFacts.

(** The text of a month as the month picker gives it: four digits of
    year, a hyphen, two digits of month. *)
Definition yearText (y : Z) : string :=
  String (digitChar (y / 1000)) (String (digitChar (y / 100 mod 10))
    (String (digitChar (y / 10 mod 10)) (String (digitChar (y mod 10)) EmptyString))).

Definition monthText (m : Z) : string :=
  String (digitChar (m / 10)) (String (digitChar (m mod 10)) EmptyString).

Definition monthString (y m : Z) : string :=
  (yearText y ++ String "-" (monthText m))%string.

Lemma forallb_range (p : Z -> bool) (lo hi : Z) :
  forallb (fun k => p (Z.of_nat k)) (seq (Z.to_nat lo) (Z.to_nat (hi - lo))) = true ->
  forall z, 0 <= lo <= z /\ z < hi -> p z = true.
Proof.
  intros H z Hz. rewrite forallb_forall in H.
  rewrite <- (Z2Nat.id z) by lia. apply H. apply in_seq. lia.
Qed.

Lemma scanRadixLiteral_digits (a b : Z) (rest : string) :
  0 <= a <= 9 -> 0 <= b <= 9 ->
  scanRadixLiteral (String (digitChar a) (String (digitChar b) rest)) = None.
Proof.
  intros Ha Hb. each_digit a Ha; try reflexivity. each_digit b Hb; reflexivity.
Qed.

(** [Number] reads four digits as the integer they write. *)
Lemma ofString_yearText (y : Z) :
  0 <= y <= 9999 -> ofString (yearText y) = ofDecimal false y 0.
Proof.
  intros Hy. unfold yearText.
  set (d3 := y / 1000). set (d2 := y / 100 mod 10).
  set (d1 := y / 10 mod 10). set (d0 := y mod 10).
  assert (H3 : 0 <= d3 <= 9).
  { unfold d3. split; [apply Z.div_pos; lia|].
    apply Z.lt_succ_r. apply Z.div_lt_upper_bound; lia. }
  assert (H2 : 0 <= d2 <= 9) by (pose proof (Z.mod_pos_bound (y / 100) 10); lia).
  assert (H1 : 0 <= d1 <= 9) by (pose proof (Z.mod_pos_bound (y / 10) 10); lia).
  assert (H0 : 0 <= d0 <= 9) by (pose proof (Z.mod_pos_bound y 10); lia).
  assert (Hval : ((d3 * 10 + d2) * 10 + d1) * 10 + d0 = y).
  { unfold d3, d2, d1, d0.
    pose proof (Z.div_mod y 10 ltac:(lia)) as E1.
    pose proof (Z.div_mod (y / 10) 10 ltac:(lia)) as E2.
    pose proof (Z.div_mod (y / 100) 10 ltac:(lia)) as E3.
    assert (E4 : y / 100 = y / 10 / 10) by (rewrite Z.div_div by lia; reflexivity).
    assert (E5 : y / 1000 = y / 100 / 10) by (rewrite Z.div_div by lia; reflexivity).
    rewrite E5. rewrite E4 in *. lia. }
  set (text := String (digitChar d3) (String (digitChar d2)
                 (String (digitChar d1) (String (digitChar d0) EmptyString)))).
  destruct (digitChar_plain d3 H3) as (Hws3 & Hminus & Hplus & HI).
  destruct (digitChar_plain d0 H0) as (Hws0 & _).
  assert (Htrim : JsString.trim text = text).
  { unfold JsString.trim.
    assert (Hstart : JsString.trimStart text = text).
    { unfold text. cbn [JsString.trimStart]. rewrite Hws3. reflexivity. }
    rewrite Hstart.
    change text with ((String (digitChar d3) (String (digitChar d2)
                         (String (digitChar d1) EmptyString)))
                      ++ String (digitChar d0) EmptyString)%string.
    apply trimEnd_last. exact Hws0. }
  assert (Hradix : scanRadixLiteral text = None)
    by (unfold text; apply scanRadixLiteral_digits; assumption).
  assert (Hsign : match text with
                  | String "-"%char r => (true, r)
                  | String "+"%char r => (false, r)
                  | _ => (false, text)
                  end = (false, text)).
  { unfold text.
    destruct (digitChar d3) as [[] [] [] [] [] [] [] []]; try reflexivity; congruence. }
  assert (Hinf : String.prefix "Infinity" text = false).
  { unfold text.
    change (String.prefix "Infinity"
              (String (digitChar d3) (String (digitChar d2)
                 (String (digitChar d1) (String (digitChar d0) EmptyString)))))
      with (if ascii_dec "I" (digitChar d3)
            then String.prefix "nfinity"
                   (String (digitChar d2)
                      (String (digitChar d1) (String (digitChar d0) EmptyString)))
            else false).
    destruct (ascii_dec "I" (digitChar d3)) as [E|_]; [congruence | reflexivity]. }
  assert (Hscan : scanDigits 10 text 0 0 = (y, 4, EmptyString)).
  { unfold text. cbn [scanDigits]. rewrite !digitValue_digitChar by assumption.
    f_equal. f_equal. lia. }
  unfold ofString. rewrite Htrim, Hradix. unfold scanStrDecimalLiteral.
  rewrite Hsign, Hinf, Hscan. reflexivity.
Qed.

Lemma yearText_reads (y : Z) :
  0 <= y <= 9999 ->
  MakeFullYear (ofString (yearText y)) = Some (if y <=? 99 then 1900 + y else y).
Proof.
  intros Hy. rewrite (ofString_yearText y Hy). unfold MakeFullYear.
  assert (Hof : ofDecimal false y 0 = ofZ y).
  { unfold ofDecimal, ofZ. destruct y as [|p|p]; [reflexivity| |lia].
    cbn [Z.leb Z.compare cond_Zopp]. rewrite Z.pow_0_r, Z.mul_1_r. reflexivity. }
  rewrite Hof, truncate_ofZ by lia.
  replace (0 <=? y) with true by (symmetry; apply Z.leb_le; lia).
  cbn [andb]. destruct (y <=? 99); reflexivity.
Qed.

Lemma monthText_reads (m : Z) :
  1 <= m <= 12 -> truncate (ofString (monthText m)) = Some m.
Proof.
  intros Hm.
  destruct (month_cases m Hm)
    as [->|[->|[->|[->|[->|[->|[->|[->|[->|[->|[->| ->]]]]]]]]]]]; reflexivity.
Qed.

Lemma dayCount_truthy (k : Z) :
  1 <= k <= 31 -> truthy (ofZ k) = true /\ isNaN (ofZ k) = false.
Proof.
  intros Hk.
  assert (H : truthy (ofZ k) && negb (isNaN (ofZ k)) = true).
  { apply (forallb_range (fun k => truthy (ofZ k) && negb (isNaN (ofZ k))) 1 32);
      [vm_compute; reflexivity | lia]. }
  apply andb_true_iff in H. destruct H as [H1 H2].
  apply negb_true_iff in H2. auto.
Qed.

Lemma daysInCalendarMonth_century (y m : Z) :
  1 <= y <= 99 -> daysInCalendarMonth (1900 + y) m = daysInCalendarMonth y m.
Proof.
  intros Hy. unfold daysInCalendarMonth, isLeapYear.
  assert (H4 : (1900 + y) mod 4 = y mod 4).
  { replace (1900 + y) with (y + 475 * 4) by lia. apply Z.mod_add. lia. }
  assert (H100 : (1900 + y) mod 100 = y mod 100).
  { replace (1900 + y) with (y + 19 * 100) by lia. apply Z.mod_add. lia. }
  assert (Hy100 : y mod 100 = y) by (apply Z.mod_small; lia).
  rewrite H4, H100, Hy100.
  replace (y =? 0) with false by (symmetry; apply Z.eqb_neq; lia).
  cbn [negb orb]. reflexivity.
Qed.

Lemma MakeDay_bound (y m : Z) :
  0 <= y <= 10000 -> 1 <= m <= 12 -> Z.abs (MakeDay y m 0) <= 10000000.
Proof.
  intros Hy Hm. unfold MakeDay.
  assert (Hq : m / 12 = 0 \/ m / 12 = 1).
  { destruct (month_cases m Hm)
      as [->|[->|[->|[->|[->|[->|[->|[->|[->|[->|[->| ->]]]]]]]]]]]; auto. }
  pose proof (DayFromYear_estimate (y + m / 12)) as He.
  assert (Hs : 0 <= monthStart (if DaysInYear (y + m / 12) =? 366 then 1 else 0) (m mod 12)
               <= 366).
  { pose proof (Z.mod_pos_bound m 12 ltac:(lia)) as Hr.
    destruct (DaysInYear (y + m / 12) =? 366);
      destruct (m mod 12) as [|[[[|[]|]|[[]|[]|]|]|[[|[]|]|[[]|[]|]|]|]|]; cbn [monthStart]; lia. }
  lia.
Qed.

(** The day count the memo computes for a month of the calendar. *)
Lemma daysInMonth_monthString (y m : Z) :
  1 <= y <= 9999 -> 1 <= m <= 12 ->
  daysInMonth (monthString y m) = ofZ (daysInCalendarMonth y m).
Proof.
  intros Hy Hm. unfold daysInMonth, monthString.
  change (JsString.truthy (yearText y ++ String "-" (monthText m))) with true.
  change (JsString.sliceTo 4 (yearText y ++ String "-" (monthText m)))
    with (yearText y).
  change (JsString.sliceFrom 5 (yearText y ++ String "-" (monthText m)))
    with (monthText m).
  cbv iota. unfold construct.
  rewrite (yearText_reads y) by lia. rewrite (monthText_reads m Hm).
  change (truncate zero) with (Some 0).
  set (y' := if y <=? 99 then 1900 + y else y).
  assert (Hy' : 0 <= y' <= 10000 /\ daysInCalendarMonth y' m = daysInCalendarMonth y m).
  { unfold y'. destruct (Z.leb_spec y 99).
    - split; [lia | apply daysInCalendarMonth_century; lia].
    - split; [lia | reflexivity]. }
  destruct Hy' as [Hy' Hsame].
  pose proof (MakeDay_bound y' m Hy' Hm) as Hb.
  unfold TimeClip.
  replace (Z.abs (MakeDay y' m 0 * msPerDay) <=? 8640000000000000) with true
    by (symmetry; apply Z.leb_le; unfold msPerDay; lia).
  unfold getDate, DateFromTime, Day.
  rewrite Z.div_mul by (unfold msPerDay; lia).
  rewrite DateFromDay_end_of_month by exact Hm. rewrite Hsame. reflexivity.
Qed.

(** Whatever the month text, the day count is NaN or a day of a month. *)
Lemma daysInMonth_cases (month : string) :
  daysInMonth month = NaN \/ exists k, 1 <= k <= 31 /\ daysInMonth month = ofZ k.
Proof.
  unfold daysInMonth. destruct (JsString.truthy month).
  - destruct (construct _ _ _) as [t|]; [right|left; reflexivity].
    exists (DateFromTime t). split; [apply DateFromDay_range | reflexivity].
  - right. exists 30. split; [lia | reflexivity].
Qed.

Lemma truthy_false_iff (x : number) :
  truthy x = false <-> x = NaN \/ exists s, x = S754_zero s.
Proof.
  destruct x as [s|s| |s m e]; simpl; split; intros H; try discriminate;
    try reflexivity; eauto.
  - destruct H as [H|[s' H]]; discriminate H.
  - destruct H as [H|[s' H]]; discriminate H.
Qed.

(** C10. Whatever the month text, the day count is NaN or one of 1..31,
    and the daily average is the total itself whenever the day count is
    zero or NaN, a division only by a day count that is neither. *)
Theorem dailyAverage_never_divides_by_zero_or_NaN
  (filtered : list Expense) (month : string) :
  let days := daysInMonth month in
  let t := totals filtered month in
  (days = NaN \/ exists k, 1 <= k <= 31 /\ days = ofZ k) /\
  (days = NaN \/ (exists s, days = S754_zero s) ->
     t.(dailyAverage) = t.(total)) /\
  (t.(dailyAverage) <> t.(total) ->
     t.(dailyAverage) = div t.(total) days /\
     isNaN days = false /\ exists k, 1 <= k <= 31 /\ days = ofZ k).
Proof.
  intros days t. subst t. unfold totals. cbn [dailyAverage total]. fold days.
  pose proof (daysInMonth_cases month) as Hcases. fold days in Hcases.
  split; [exact Hcases|]. split.
  - intros H. apply truthy_false_iff in H. rewrite H. reflexivity.
  - intros Hdiff. destruct (truthy days) eqn:Ht; [|contradiction Hdiff; reflexivity].
    split; [reflexivity|].
    destruct Hcases as [E|(k & Hk & E)]; [rewrite E in Ht; discriminate Ht|].
    split; [rewrite E; apply dayCount_truthy; exact Hk | eauto].
Qed.

Lemma dailyAverage_never_divides_by_zero_or_NaN_witness :
  (totals [coffee; keyboard] "abcd-02").(dailyAverage)
  = (totals [coffee; keyboard] "abcd-02").(total).
Proof.
  refine (proj1 (proj2 (dailyAverage_never_divides_by_zero_or_NaN
                          [coffee; keyboard] "abcd-02")) _).
  left. vm_compute. reflexivity.
Defined.

(** C4. With no month selected the daily average is the total divided by
    30; with the month [m] of year [y] selected, written YYYY-MM, it is
    the total divided by the number of days that month has in the
    calendar, leap years included. For the month 2024-03 and the amounts
    10 and 20 it is 30 / 31. *)
Theorem dailyAverage_divides_by_days_of_month (filtered : list Expense) :
  (totals filtered "").(dailyAverage) = div (totals filtered "").(total) (ofZ 30) /\
  (forall y m, 1 <= y <= 9999 -> 1 <= m <= 12 ->
     (totals filtered (monthString y m)).(dailyAverage)
     = div (totals filtered (monthString y m)).(total)
           (ofZ (daysInCalendarMonth y m))) /\
  (let shown := filteredExpenses (collation := codeUnitCollation)
                  [coffee; keyboard] "2024-03" "all" "" in
   Permutation shown [coffee; keyboard] /\
   (totals shown "2024-03").(total) = ofZ 30 /\
   (totals shown "2024-03").(dailyAverage) = div (ofZ 30) (ofZ 31)).
Proof.
  split; [reflexivity|]. split.
  - intros y m Hy Hm. unfold totals. cbn [dailyAverage total].
    rewrite (daysInMonth_monthString y m Hy Hm).
    assert (Hd : 1 <= daysInCalendarMonth y m <= 31).
    { unfold daysInCalendarMonth.
      destruct (m =? 2); [destruct (isLeapYear y); lia|].
      destruct ((m =? 4) || (m =? 6) || (m =? 9) || (m =? 11)); lia. }
    destruct (dayCount_truthy _ Hd) as [-> _]. reflexivity.
  - split; [|split]; vm_compute; try reflexivity.
    apply perm_swap.
Qed.

Lemma dailyAverage_divides_by_days_of_month_witness :
  (totals [coffee; keyboard] "2024-02").(dailyAverage)
  = div (totals [coffee; keyboard] "2024-02").(total) (ofZ 29).
Proof.
  refine (proj1 (proj2 (dailyAverage_divides_by_days_of_month [coffee; keyboard]))
            2024 2 _ _); lia.
Defined.

(** The years 0..99 are read as 1900..1999, so the text 0000-02 is given
    the 28 days of February 1900. *)
Example daysInMonth_year_zero : daysInMonth "0000-02" = ofZ 28.
Proof. vm_compute. reflexivity. Qed.


(** ** The aggregation by category *)

Lemma lookup_In (V : Type) (k : string) (o : list (string * V)) (v : V) :
  lookup k o = Some v -> In v (map snd o).
Proof.
  induction o as [|[k' v'] o IH]; simpl; [discriminate|].
  destruct (String.eqb k' k); [intros [= ->]; auto | auto].
Qed.

Lemma set_values (P : number -> Prop) (o : JsObject.object) (k : string) (v : number) :
  Forall P (map snd o) -> P v -> Forall P (map snd (JsObject.set o k v)).
Proof.
  intros Ho Hv. induction o as [|[k' v'] o IH]; simpl.
  - constructor; [exact Hv | constructor].
  - inversion Ho as [|? ? Hv' Ho']; subst.
    destruct (String.eqb k' k); simpl; constructor; auto.
Qed.

Lemma sumByCategory_exponentOk (filtered : list Expense) :
  Forall (fun e => isDouble e.(amount) = true) filtered ->
  Forall exponentOk (map snd (sumByCategory filtered)).
Proof.
  unfold sumByCategory. intros H.
  assert (Hgen : forall acc : JsObject.object,
             Forall exponentOk (map snd acc) ->
             Forall exponentOk
               (map snd
                  (fold_left
                     (fun acc expense =>
                        JsObject.set acc expense.(category)
                          (add (match lookup expense.(category) acc with
                                | Some v => v
                                | None => zero
                                end) expense.(amount)))
                     filtered acc))).
  { induction H as [|e l He Hl IH]; intros acc Hacc; simpl; [exact Hacc|].
    apply IH. apply set_values; [exact Hacc|].
    apply add_exponentOk; [|apply isDouble_exponentOk; exact He].
    destruct (lookup (category e) acc) as [v|] eqn:E; [|exact I].
    rewrite Forall_forall in Hacc. apply Hacc. eapply lookup_In. exact E. }
  apply Hgen. constructor.
Qed.

Lemma filter_partition_perm (A : Type) (p : A -> bool) (l : list A) :
  Permutation (filter p l ++ filter (fun x => negb (p x)) l) l.
Proof.
  induction l as [|x l IH]; simpl; [constructor|].
  destruct (p x); simpl.
  - constructor. exact IH.
  - apply Permutation_sym. apply Permutation_cons_app. apply Permutation_sym. exact IH.
Qed.

Lemma entries_perm (o : JsObject.object) : Permutation (JsObject.entries o) o.
Proof.
  unfold JsObject.entries.
  eapply perm_trans; [|apply (filter_partition_perm _ JsObject.isIndexKey)].
  apply Permutation_app_tail. apply Array_sort_perm.
Qed.

Lemma filter_head_split (A : Type) (p : A -> bool) (l : list A) (h : A) (rest : list A) :
  filter p l = h :: rest ->
  exists before after,
    l = before ++ h :: after /\ forall x, In x before -> p x = false.
Proof.
  induction l as [|x l IH]; simpl; [discriminate|].
  destruct (p x) eqn:Hx.
  - intros [= -> _]. exists [], l. split; [reflexivity | intros ? []].
  - intros H. destruct (IH H) as (before & after & -> & Hb).
    exists (x :: before), after. split; [reflexivity|].
    intros y [<-|Hy]; auto.
Qed.

(** ** The top category *)

Lemma notAfter_bySumDescending (a b : string * number) :
  good (snd a) = true -> good (snd b) = true ->
  (notAfter bySumDescending a b <-> (value (snd b) <= value (snd a))%Q).
Proof.
  intros Ha Hb. unfold notAfter, bySumDescending.
  rewrite (SortCompare_sub_good _ _ Hb Ha). symmetry. apply Qle_alt.
Qed.

(** Entries whose sum has the value of [h]'s. *)
Definition tiesWith (h kv : string * number) : bool :=
  good (snd kv) && Qeq_bool (value (snd kv)) (value (snd h)).

(** C7, as the code has it. The top category is missing exactly when the
    aggregation is empty. When the amounts are doubles, no category is a
    name inherited from [Object.prototype] and no sum has overflowed,
    the top category is an entry of [Object.entries] of the aggregation
    whose sum no other entry exceeds, and every entry listed before it
    has a strictly smaller sum: among equal sums the first in the order
    of [Object.entries] wins, which lists array-index names in ascending
    numeric order before the other names in insertion order. *)
Theorem topCategory_first_largest_of_entries
  (filtered : list Expense) (month : string) :
  let byCategory := sumByCategory filtered in
  let top := (totals filtered month).(topCategory) in
  (top = None <-> byCategory = []) /\
  (Forall (fun e => isDouble e.(amount) = true) filtered ->
   Forall (fun e => ~ In e.(category) JsObject.prototypeNames) filtered ->
   Forall (fun kv => isFinite (snd kv) = true) byCategory ->
   forall t, top = Some t ->
     exists before after,
       JsObject.entries byCategory
       = before ++ (t.(TopCategory.name), t.(TopCategory.amount)) :: after /\
       (forall kv, In kv (JsObject.entries byCategory) ->
          (value (snd kv) <= value t.(TopCategory.amount))%Q) /\
       (forall kv, In kv before ->
          (value (snd kv) < value t.(TopCategory.amount))%Q)).
Proof.
  intros byCategory top. subst top. unfold totals. cbn [topCategory].
  fold byCategory.
  set (listed := JsObject.entries byCategory).
  set (sorted := Array_sort bySumDescending listed).
  assert (Hperm : Permutation listed byCategory) by apply entries_perm.
  split.
  - destruct (hd_error sorted) as [h|] eqn:Eh.
    + split; [discriminate|]. intros Hnil. exfalso.
      rewrite Hnil in Hperm. apply Permutation_sym, Permutation_nil in Hperm.
      unfold sorted in Eh. rewrite Hperm in Eh. discriminate Eh.
    + split; [|reflexivity]. intros _.
      assert (Hs : sorted = []) by (destruct sorted; [reflexivity | discriminate Eh]).
      apply Array_sort_nil_iff in Hs. rewrite Hs in Hperm.
      apply Permutation_nil. exact Hperm.
  - intros Hdouble _ Hfinite t Htop.
    assert (Hgood : Forall (fun kv => good (snd kv) = true) listed).
    { pose proof (sumByCategory_exponentOk filtered Hdouble) as Hexp.
      fold byCategory in Hexp. rewrite Forall_forall in Hexp, Hfinite |- *.
      intros kv Hkv. apply (Permutation_in _ Hperm) in Hkv.
      apply good_iff. split; [apply Hfinite; exact Hkv|].
      apply Hexp. apply in_map. exact Hkv. }
    destruct sorted as [|h tl] eqn:Es; [discriminate Htop|].
    cbn [hd_error] in Htop. injection Htop as <-. cbn [TopCategory.name TopCategory.amount].
    replace (fst h, snd h) with h by (destruct h; reflexivity).
    assert (Hsorted : StronglySorted (notAfter bySumDescending) (h :: tl)).
    { rewrite <- Es. unfold sorted.
      apply (Array_sort_sorted_on bySumDescending (fun kv => good (snd kv) = true)).
      - intros x y Hx Hy Hxy Hyx.
        unfold bySumDescending in Hxy, Hyx.
        rewrite (SortCompare_sub_good _ _ Hy Hx) in Hxy.
        rewrite (SortCompare_sub_good _ _ Hx Hy) in Hyx.
        rewrite <- Qcompare_antisym, Hxy in Hyx. discriminate Hyx.
      - intros x y z Hx Hy Hz.
        rewrite (notAfter_bySumDescending x y Hx Hy),
                (notAfter_bySumDescending y z Hy Hz),
                (notAfter_bySumDescending x z Hx Hz).
        intros H1 H2. eapply Qle_trans; eassumption.
      - exact Hgood. }
    assert (Hin : forall kv, In kv listed <-> In kv (h :: tl)).
    { intros kv. rewrite <- Es. unfold sorted. symmetry. apply Array_sort_In. }
    assert (Hh : good (snd h) = true).
    { rewrite Forall_forall in Hgood. apply Hgood, Hin. left. reflexivity. }
    assert (Hmax : forall kv, In kv listed -> (value (snd kv) <= value (snd h))%Q).
    { intros kv Hkv. apply Hin in Hkv. destruct Hkv as [<-|Hkv]; [apply Qle_refl|].
      inversion Hsorted as [|? ? _ Hall]; subst. rewrite Forall_forall in Hall.
      apply notAfter_bySumDescending; [exact Hh| |apply Hall; exact Hkv].
      rewrite Forall_forall in Hgood. apply Hgood, Hin. right. exact Hkv. }
    assert (Hstable : filter (tiesWith h) (h :: tl) = filter (tiesWith h) listed).
    { rewrite <- Es. unfold sorted. apply Array_sort_stable.
      intros x y Hx Hy. unfold tiesWith in Hx, Hy.
      apply andb_true_iff in Hx, Hy. destruct Hx as [Gx Ex], Hy as [Gy Ey].
      apply Qeq_bool_iff in Ex, Ey. unfold bySumDescending.
      rewrite (SortCompare_sub_good _ _ Gy Gx).
      assert (E : (value (snd y) ?= value (snd x))%Q = Eq).
      { apply Qeq_alt. rewrite Ex, Ey. apply Qeq_refl. }
      rewrite E. discriminate. }
    assert (Hhead : tiesWith h h = true).
    { unfold tiesWith. rewrite Hh. apply Qeq_bool_iff, Qeq_refl. }
    cbn [filter] in Hstable. rewrite Hhead in Hstable. symmetry in Hstable.
    destruct (filter_head_split _ _ _ _ _ Hstable) as (before & after & Hsplit & Hb).
    exists before, after. split; [exact Hsplit|]. split; [exact Hmax|].
    intros kv Hkv.
    assert (Hkvin : In kv listed).
    { rewrite Hsplit. apply in_or_app. left. exact Hkv. }
    pose proof (Hmax kv Hkvin) as Hle.
    specialize (Hb kv Hkv). unfold tiesWith in Hb.
    assert (Gkv : good (snd kv) = true).
    { rewrite Forall_forall in Hgood. apply Hgood. exact Hkvin. }
    rewrite Gkv in Hb. cbn [andb] in Hb.
    apply Qle_lteq in Hle. destruct Hle as [Hlt|Heq]; [exact Hlt|].
    apply Qeq_bool_iff in Heq. congruence.
Qed.

Definition snack : Expense :=
  {| id := "e5"; description := "Snack"; category := "b";
     amount := ofZ 5; date := "2024-03-04"; note := None;
     createdAt := "2024-03-04T08:00:00.000Z" |}.

Definition locker : Expense :=
  {| id := "f6"; description := "Locker 1"; category := "1";
     amount := ofZ 5; date := "2024-03-03"; note := None;
     createdAt := "2024-03-03T08:00:00.000Z" |}.

Lemma topCategory_first_largest_of_entries_witness :
  exists before after,
    JsObject.entries (sumByCategory [keyboard; coffee])
    = before ++ ("Tech", ofZ 20) :: after /\
    (forall kv, In kv before -> (value (snd kv) < value (ofZ 20))%Q).
Proof.
  destruct (proj2 (topCategory_first_largest_of_entries [keyboard; coffee] "2024-03"))
    with (t := {| TopCategory.name := "Tech"; TopCategory.amount := ofZ 20 |})
    as (before & after & Hsplit & _ & Hbefore).
  - repeat constructor.
  - repeat constructor; simpl; intuition discriminate.
  - repeat constructor.
  - vm_compute. reflexivity.
  - exists before, after. split; [exact Hsplit | exact Hbefore].
Defined.

(** Two categories tie at 5; "b" was inserted first, and the top category
    is "1", which [Object.entries] lists first as an array index. *)
Lemma topCategory_tie_not_by_insertion_order :
  map fst (sumByCategory [snack; locker]) = ["b"; "1"] /\
  map snd (sumByCategory [snack; locker]) = [ofZ 5; ofZ 5] /\
  (totals [snack; locker] "2024-03").(topCategory)
  = Some {| TopCategory.name := "1"; TopCategory.amount := ofZ 5 |}.
Proof. repeat split; vm_compute; reflexivity. Qed.

(* ================================================================== *)
(** * Part III. Further properties of the handlers and the views *)
(* ================================================================== *)

(** ** Trimming *)

Module JsTrimFacts.
Import JsString JsStringFacts.

Lemma trimStart_head (s : string) :
  trimStart s = EmptyString \/
  exists c rest, trimStart s = String c rest /\ isWhiteSpace c = false.
Proof.
  induction s as [|c s IH]; simpl; [left; reflexivity|].
  destruct (isWhiteSpace c) eqn:Hc; [exact IH|]. right. eauto.
Qed.

Lemma trimEnd_head (c : ascii) (s : string) :
  isWhiteSpace c = false -> exists rest, trimEnd (String c s) = String c rest.
Proof.
  intros Hc. simpl. destruct (trimEnd s); [rewrite Hc|]; eauto.
Qed.

Lemma trimEnd_idempotent (s : string) : trimEnd (trimEnd s) = trimEnd s.
Proof.
  induction s as [|c s IH]; simpl; [reflexivity|].
  destruct (trimEnd s) as [|d t] eqn:Et.
  - destruct (isWhiteSpace c) eqn:Hc; simpl; [reflexivity|]. rewrite Hc. reflexivity.
  - change (trimEnd (String c (String d t)))
      with (match trimEnd (String d t) with
            | EmptyString => if isWhiteSpace c then EmptyString else String c EmptyString
            | t' => String c t'
            end).
    rewrite IH. reflexivity.
Qed.

(** A trimmed text has no white space left at either end: trimming it
    again changes nothing. *)
Lemma trim_idempotent (s : string) : trim (trim s) = trim s.
Proof.
  unfold trim. destruct (trimStart_head s) as [E|(c & rest & E & Hc)]; rewrite E.
  - reflexivity.
  - destruct (trimEnd_head c rest Hc) as [rest' E'].
    rewrite E'. cbn [trimStart]. rewrite Hc. rewrite <- E'. apply trimEnd_idempotent.
Qed.

End JsTrimFacts.

(** ** Submitting a draft *)

Section SubmitFacts.
Variable Date_parse : string -> number.
Variable Number_toString : number -> string.
Import JsString JsStringFacts JsTrimFacts JsNumberFacts NumberFormat NumberFormatFacts.

(** The draft passed the three checks of [handleSubmit]. *)
Definition accepted (uuid now : string) (st : State) : Prop :=
  (handleSubmit Date_parse Number_toString uuid now st).(error) = None.

Lemma accepted_inv (uuid now : string) (st : State) :
  accepted uuid now st ->
  truthy (trim st.(draft).(Draft.description)) = true /\
  isFinite (parseFloat st.(draft).(Draft.amount)) = true /\
  leb (parseFloat st.(draft).(Draft.amount)) zero = false /\
  handleSubmit Date_parse Number_toString uuid now st =
  {| expenses :=
       {| id := uuid;
          description := trim st.(draft).(Draft.description);
          category := if truthy st.(draft).(Draft.category)
                      then st.(draft).(Draft.category) else "Other";
          amount := ofString (toFixed2 Number_toString
                                (parseFloat st.(draft).(Draft.amount)));
          date := st.(draft).(Draft.date);
          note := (let n := trim st.(draft).(Draft.note) in
                   if truthy n then Some n else None);
          createdAt := now |} :: st.(expenses);
     draft := {| Draft.description := "";
                 Draft.category := st.(draft).(Draft.category);
                 Draft.amount := "";
                 Draft.date := st.(draft).(Draft.date);
                 Draft.note := "" |};
     month := st.(month);
     categoryFilter := st.(categoryFilter);
     searchTerm := st.(searchTerm);
     error := None |}.
Proof.
  unfold accepted, handleSubmit.
  destruct (truthy (trim st.(draft).(Draft.description))); [|discriminate].
  cbn [negb].
  destruct (negb (isFinite (parseFloat st.(draft).(Draft.amount)))
            || leb (parseFloat st.(draft).(Draft.amount)) zero) eqn:Ea;
    [discriminate|].
  destruct (negb (truthy st.(draft).(Draft.date))
            || isNaN (Date_parse st.(draft).(Draft.date))); [discriminate|].
  apply orb_false_iff in Ea. destruct Ea as [Ef El]. apply negb_false_iff in Ef.
  intros _. auto.
Qed.

(** An accepted draft adds exactly one record, at the head of the store:
    it carries the generated id and time stamp, the records that were
    there follow it unchanged, and the filters are left as they were. *)
Theorem handleSubmit_prepends_one_record (uuid now : string) (st : State) :
  accepted uuid now st ->
  let after := handleSubmit Date_parse Number_toString uuid now st in
  exists payload,
    after.(expenses) = payload :: st.(expenses) /\
    payload.(id) = uuid /\ payload.(createdAt) = now /\
    payload.(date) = st.(draft).(Draft.date) /\
    List.length after.(expenses) = S (List.length st.(expenses)) /\
    after.(month) = st.(month) /\
    after.(categoryFilter) = st.(categoryFilter) /\
    after.(searchTerm) = st.(searchTerm).
Proof.
  intros Hacc after. subst after.
  destruct (accepted_inv uuid now st Hacc) as (_ & _ & _ & ->).
  eexists. cbn [expenses month categoryFilter searchTerm].
  split; [reflexivity|]. repeat split.
Qed.

(** What an accepted draft stores is normalised: the description is the
    trimmed text, not empty and with no white space at either end; the
    category is the typed one, or "Other" when none was typed, never
    empty; the note is absent when the typed note is blank and otherwise
    its trimmed text, never an empty one. *)
Theorem handleSubmit_stores_normalised_fields (uuid now : string) (st : State) :
  accepted uuid now st ->
  exists payload rest,
    (handleSubmit Date_parse Number_toString uuid now st).(expenses)
    = payload :: rest /\
    payload.(description) = trim st.(draft).(Draft.description) /\
    payload.(description) <> EmptyString /\
    trim payload.(description) = payload.(description) /\
    payload.(category) <> EmptyString /\
    (st.(draft).(Draft.category) = EmptyString -> payload.(category) = "Other") /\
    (st.(draft).(Draft.category) <> EmptyString ->
       payload.(category) = st.(draft).(Draft.category)) /\
    (whiteSpaceOnly st.(draft).(Draft.note) -> payload.(note) = None) /\
    (~ whiteSpaceOnly st.(draft).(Draft.note) ->
       payload.(note) = Some (trim st.(draft).(Draft.note))) /\
    (forall n, payload.(note) = Some n -> n <> EmptyString /\ trim n = n).
Proof.
  intros Hacc.
  destruct (accepted_inv uuid now st Hacc) as (Hdesc & _ & _ & ->).
  eexists. eexists. cbn [expenses]. split; [reflexivity|].
  cbn [description category note].
  split; [reflexivity|].
  split; [apply truthy_iff; exact Hdesc|].
  split; [apply trim_idempotent|].
  split; [destruct (Draft.category (draft st)); discriminate|].
  split; [intros ->; reflexivity|].
  split; [destruct (Draft.category (draft st)); [congruence | reflexivity]|].
  split.
  { intros Hb. apply trim_empty_iff in Hb. rewrite Hb. reflexivity. }
  split.
  { intros Hb. rewrite <- trim_empty_iff in Hb. apply truthy_iff in Hb.
    rewrite Hb. reflexivity. }
  intros n. destruct (truthy (trim (Draft.note (draft st)))) eqn:Hn; [|discriminate].
  intros [= <-]. split; [apply truthy_iff; exact Hn | apply trim_idempotent].
Qed.

End SubmitFacts.

Lemma handleSubmit_prepends_one_record_witness :
  exists payload,
    (handleSubmit sampleDateParse sampleNumberToString "u1"
       "2024-03-02T12:00:00.000Z" (draftOf " Tea " "12.345")).(expenses)
    = payload :: [coffee] /\ payload.(id) = "u1".
Proof.
  destruct (handleSubmit_prepends_one_record sampleDateParse sampleNumberToString
              "u1" "2024-03-02T12:00:00.000Z" (draftOf " Tea " "12.345") eq_refl)
    as (payload & Hstore & Hid & _).
  exists payload. split; [exact Hstore | exact Hid].
Defined.

Lemma handleSubmit_stores_normalised_fields_witness :
  exists payload rest,
    (handleSubmit sampleDateParse sampleNumberToString "u1"
       "2024-03-02T12:00:00.000Z" (draftOf " Tea " "12.345")).(expenses)
    = payload :: rest /\
    payload.(description) = "Tea" /\ payload.(category) = "Other" /\
    payload.(note) = None.
Proof.
  destruct (handleSubmit_stores_normalised_fields sampleDateParse sampleNumberToString
              "u1" "2024-03-02T12:00:00.000Z" (draftOf " Tea " "12.345") eq_refl)
    as (payload & rest & Hstore & Hdesc & _ & _ & _ & Hcat & _ & Hnote & _).
  exists payload, rest. split; [exact Hstore|].
  split; [rewrite Hdesc; reflexivity|].
  split; [apply Hcat; reflexivity|].
  apply Hnote. intros c [<-|[]]. reflexivity.
Defined.

Section SubmitAmountFacts.
Variable Date_parse : string -> number.
Variable Number_toString : number -> string.
Import JsString JsStringFacts JsNumberFacts NumberFormat NumberFormatFacts.

Lemma small_value_below_threshold (m : positive) (e : Z) :
  (value (S754_finite false m e) < 1)%Q ->
  leb (ofZ (10 ^ 21)) (S754_finite false m e) = false.
Proof.
  intros Hv.
  assert (He : e < 0).
  { destruct (Z.lt_ge_cases e 0) as [H|H]; [exact H|exfalso].
    unfold value in Hv. replace (0 <=? e) with true in Hv
      by (symmetry; apply Z.leb_le; exact H).
    unfold Qlt, inject_Z in Hv. cbn [Qnum Qden cond_Zopp] in Hv.
    assert (0 < 2 ^ e) by (apply Z.pow_pos_nonneg; lia). nia. }
  change (ofZ (10 ^ 21)) with (S754_finite false 7629394531250000 17).
  unfold leb, SFleb, SFcompare.
  replace (17 ?= e) with Gt by (symmetry; apply Z.compare_gt_iff; lia).
  reflexivity.
Qed.

(** The amount check asks for more than zero, but the rounding comes
    after it: an accepted amount below half a cent is stored as zero. *)
Theorem handleSubmit_stores_zero_below_half_cent (uuid now : string) (st : State) :
  accepted Date_parse Number_toString uuid now st ->
  (100 * value (parseFloat st.(draft).(Draft.amount)) < 1 # 2)%Q ->
  exists payload,
    (handleSubmit Date_parse Number_toString uuid now st).(expenses)
    = payload :: st.(expenses) /\
    payload.(amount) = zero.
Proof.
  intros Hacc Hsmall.
  destruct (accepted_inv _ _ uuid now st Hacc) as (_ & Hfin & Hpos & ->).
  eexists. cbn [expenses]. split; [reflexivity|]. cbn [amount].
  destruct (accepted_amount_positive _ Hfin Hpos) as (m & e & Hx).
  rewrite Hx in Hsmall |- *.
  assert (Hlt1 : (value (S754_finite false m e) < 1)%Q).
  { assert (H0 : (0 <= value (S754_finite false m e))%Q).
    { apply Qnot_lt_le. intros Hneg.
      pose proof (proj1 (Qlt_alt _ _) Hneg) as Hc.
      rewrite (value_sign false m e) in Hc. discriminate Hc. }
    apply Qle_lt_trans with (100 * value (S754_finite false m e))%Q.
    - rewrite <- (Qmult_1_l (value (S754_finite false m e))) at 1.
      apply Qmult_le_compat_r; [discriminate | exact H0].
    - eapply Qlt_trans; [exact Hsmall | reflexivity]. }
  unfold toFixed2. cbn [SFabs]. rewrite (small_value_below_threshold m e Hlt1).
  destruct (fixedDigits2_nearest m e) as (_ & Hhi & Hn).
  cbv zeta in Hhi, Hn.
  assert (Hzero : fixedDigits2 (Zpos m) e = 0).
  { assert (Hlt : (inject_Z (fixedDigits2 (Zpos m) e) < 1)%Q).
    { eapply Qle_lt_trans; [exact Hhi|].
      apply Qlt_le_trans with ((1 # 2) + (1 # 2))%Q; [|discriminate].
      apply Qplus_lt_l. exact Hsmall. }
    unfold Qlt, inject_Z in Hlt. cbn [Qnum Qden] in Hlt. lia. }
  rewrite Hzero. cbn [append]. rewrite ofString_fixed2 by lia. reflexivity.
Qed.

End SubmitAmountFacts.

Lemma handleSubmit_stores_zero_below_half_cent_witness :
  exists payload,
    (handleSubmit sampleDateParse sampleNumberToString "u1"
       "2024-03-02T12:00:00.000Z" (draftOf "Gum" "0.004")).(expenses)
    = payload :: [coffee] /\ payload.(amount) = zero.
Proof.
  apply (handleSubmit_stores_zero_below_half_cent sampleDateParse sampleNumberToString
           "u1" "2024-03-02T12:00:00.000Z" (draftOf "Gum" "0.004") eq_refl).
  vm_compute. reflexivity.
Defined.

(** ** Submitting and deleting together *)

Section SubmitDeleteFacts.
Variable Date_parse : string -> number.
Variable Number_toString : number -> string.

(** Deleting the record just added, when its id is fresh, gives back the
    records there were before the draft was submitted. *)
Theorem handleDelete_undoes_handleSubmit (uuid now : string) (st : State) :
  accepted Date_parse Number_toString uuid now st ->
  (forall e, In e st.(expenses) -> e.(id) <> uuid) ->
  (handleDelete uuid (handleSubmit Date_parse Number_toString uuid now st)).(expenses)
  = st.(expenses).
Proof.
  intros Hacc Hfresh.
  destruct (accepted_inv _ _ uuid now st Hacc) as (_ & _ & _ & ->).
  unfold handleDelete. cbn [expenses filter id].
  rewrite String.eqb_refl. cbn [negb].
  apply filter_id. intros e He.
  apply negb_true_iff, String.eqb_neq, Hfresh, He.
Qed.

End SubmitDeleteFacts.

Lemma handleDelete_undoes_handleSubmit_witness :
  (handleDelete "u1"
     (handleSubmit sampleDateParse sampleNumberToString "u1"
        "2024-03-02T12:00:00.000Z" (draftOf "Tea" "3.5"))).(expenses)
  = [coffee].
Proof.
  apply (handleDelete_undoes_handleSubmit sampleDateParse sampleNumberToString
           "u1" "2024-03-02T12:00:00.000Z" (draftOf "Tea" "3.5") eq_refl).
  intros e [<-|[]]. discriminate.
Defined.

Lemma filter_comm (A : Type) (p q : A -> bool) (l : list A) :
  filter p (filter q l) = filter q (filter p l).
Proof.
  induction l as [|x l IH]; simpl; [reflexivity|].
  destruct (p x) eqn:Hp, (q x) eqn:Hq; simpl; rewrite ?Hp, ?Hq, IH; reflexivity.
Qed.

(** Deletions can be done in either order. *)
Theorem handleDelete_commutes (a b : string) (st : State) :
  handleDelete a (handleDelete b st) = handleDelete b (handleDelete a st).
Proof.
  unfold handleDelete. cbn [expenses draft month categoryFilter searchTerm error].
  f_equal. apply filter_comm.
Qed.

(** The number of records with a given id. *)
Definition countId (target : string) (l : list Expense) : nat :=
  List.length (filter (fun e => (e.(id) =? target)%string) l).

(** A deletion removes as many records as carry the id, so exactly one
    when ids are unique, and touches nothing but the records: draft,
    filters and message stay. *)
Theorem handleDelete_count (target : string) (st : State) :
  let after := handleDelete target st in
  (List.length after.(expenses) + countId target st.(expenses)
   = List.length st.(expenses))%nat /\
  countId target after.(expenses) = 0%nat /\
  after.(draft) = st.(draft) /\ after.(month) = st.(month) /\
  after.(categoryFilter) = st.(categoryFilter) /\
  after.(searchTerm) = st.(searchTerm) /\ after.(error) = st.(error).
Proof.
  cbv zeta. unfold handleDelete, countId.
  cbn [expenses draft month categoryFilter searchTerm error].
  split; [|split; [|repeat split]].
  - induction st.(expenses) as [|e l IH]; simpl; [reflexivity|].
    destruct (id e =? target)%string; simpl; lia.
  - induction st.(expenses) as [|e l IH]; simpl; [reflexivity|].
    destruct (id e =? target)%string eqn:E; simpl; [exact IH|].
    rewrite E. exact IH.
Qed.

(** ** The filters of the timeline *)

Lemma filter_length_le (A : Type) (p : A -> bool) (l : list A) :
  (List.length (filter p l) <= List.length l)%nat.
Proof.
  induction l as [|x l IH]; simpl; [lia|]. destruct (p x); simpl; lia.
Qed.

Lemma filter_perm (A : Type) (p : A -> bool) (l l' : list A) :
  Permutation l l' -> Permutation (filter p l) (filter p l').
Proof.
  induction 1 as [|x l l' H IH|x y l|l l' l'' H1 IH1 H2 IH2]; simpl.
  - constructor.
  - destruct (p x); [constructor|]; exact IH.
  - destruct (p x), (p y); try apply Permutation_refl. apply perm_swap.
  - eapply perm_trans; eassumption.
Qed.

Section FilterFacts.
Context {collation : Collation}.
Import JsString JsStringFacts.

Lemma startsWith_empty (s : string) : startsWith s EmptyString = true.
Proof. destruct s; reflexivity. Qed.

Lemma bySearch_incl
  (expenses : list Expense) (month categoryFilter searchTerm : string) (e : Expense) :
  In e (bySearch expenses month categoryFilter searchTerm) -> In e expenses.
Proof.
  unfold bySearch, byCategory, byMonth.
  destruct (truthy (trim searchTerm)), (categoryFilter =? "all")%string;
    rewrite ?filter_In; tauto.
Qed.

Lemma bySearch_incl_list
  (expenses : list Expense) (month categoryFilter searchTerm : string) :
  incl (bySearch expenses month categoryFilter searchTerm) expenses.
Proof. intros e. apply bySearch_incl. Qed.

Lemma filteredExpenses_sorted
  (expenses : list Expense) (month categoryFilter searchTerm : string) :
  datesToldApart expenses ->
  StronglySorted dateDescending
    (filteredExpenses expenses month categoryFilter searchTerm).
Proof.
  intros Hapart. unfold filteredExpenses.
  apply timelineOrder_sorts_dateDescending.
  eapply datesToldApart_incl; [apply bySearch_incl_list | exact Hapart].
Qed.

(** The timeline holds exactly the stored records that meet the three
    criteria together: the date begins with the month text, the category
    is the selected one unless "all" is selected, and, unless the search
    term is blank, the lower-cased description or the lower-cased note
    contains the trimmed, lower-cased term. It never holds more records
    than the store. *)
Theorem timeline_membership
  (expenses : list Expense) (month categoryFilter searchTerm : string) :
  let shown := filteredExpenses expenses month categoryFilter searchTerm in
  let needle := toLowerCase (trim searchTerm) in
  (forall e, In e shown <->
     In e expenses /\
     (exists rest, e.(date) = (month ++ rest)%string) /\
     (categoryFilter = "all" \/ e.(category) = categoryFilter) /\
     (whiteSpaceOnly searchTerm \/
      includes (toLowerCase e.(description)) needle = true \/
      exists n, e.(note) = Some n /\ includes (toLowerCase n) needle = true)) /\
  (List.length shown <= List.length expenses)%nat.
Proof.
  intros shown needle. subst shown needle. unfold filteredExpenses. split.
  - intros e. rewrite Array_sort_In.
    assert (Hmonth : In e (byMonth expenses month) <->
                     In e expenses /\ exists rest, e.(date) = (month ++ rest)%string).
    { unfold byMonth. rewrite filter_In, startsWith_iff. reflexivity. }
    assert (Hcat : In e (byCategory expenses month categoryFilter) <->
                   In e (byMonth expenses month) /\
                   (categoryFilter = "all" \/ e.(category) = categoryFilter)).
    { unfold byCategory. destruct (String.eqb_spec categoryFilter "all") as [E|E].
      - tauto.
      - rewrite filter_In, String.eqb_eq. tauto. }
    assert (Hmatch : matchesSearch searchTerm e = true <->
              includes (toLowerCase e.(description)) (toLowerCase (trim searchTerm))
              = true \/
              exists n, e.(note) = Some n /\
                includes (toLowerCase n) (toLowerCase (trim searchTerm)) = true).
    { unfold matchesSearch. rewrite orb_true_iff.
      destruct e.(note) as [n|].
      - split; intros [H|H]; auto.
        + right. exists n. auto.
        + destruct H as (n' & E & H). injection E as <-. auto.
      - split; intros [H|H]; auto; [discriminate|].
        destruct H as (n' & E & _). discriminate. }
    unfold bySearch.
    destruct (truthy (trim searchTerm)) eqn:Ht.
    + assert (Hnb : ~ whiteSpaceOnly searchTerm).
      { rewrite <- trim_empty_iff. apply truthy_iff. exact Ht. }
      rewrite filter_In, Hmatch, Hcat, Hmonth. tauto.
    + assert (Hb : whiteSpaceOnly searchTerm).
      { apply trim_empty_iff. destruct (trim searchTerm); [reflexivity|discriminate]. }
      rewrite Hcat, Hmonth. tauto.
  - rewrite (Permutation_length (Array_sort_perm _ _)).
    unfold bySearch, byCategory, byMonth.
    destruct (truthy (trim searchTerm)), (categoryFilter =? "all")%string;
      repeat (eapply Nat.le_trans; [apply filter_length_le|]); apply Nat.le_refl.
Qed.

(** With no month, the category "all" and a blank search term, nothing
    is hidden: the timeline is a rearrangement of the whole store. *)
Theorem timeline_without_filters_shows_all
  (expenses : list Expense) (searchTerm : string) :
  whiteSpaceOnly searchTerm ->
  Permutation (filteredExpenses expenses "" "all" searchTerm) expenses.
Proof.
  intros Hb. unfold filteredExpenses, bySearch, byCategory, byMonth.
  apply trim_empty_iff in Hb. rewrite Hb. cbn [truthy String.eqb].
  change (("all" =? "all")%string) with true. cbv iota.
  eapply perm_trans; [apply Array_sort_perm|].
  rewrite filter_id; [apply Permutation_refl|].
  intros e _. apply startsWith_empty.
Qed.

(** ** The timeline and the order of the store *)

Lemma sorted_perm_unique (A : Type) (R : A -> A -> Prop) (l l' : list A) :
  (forall x, R x x) ->
  (forall x y, In x l -> In y l -> R x y -> R y x -> x = y) ->
  StronglySorted R l -> StronglySorted R l' -> Permutation l l' -> l = l'.
Proof.
  intros Hrefl. revert l'.
  induction l as [|x l IH]; intros l' Hanti Hs Hs' Hp.
  - apply Permutation_nil in Hp. congruence.
  - destruct l' as [|y l'].
    { apply Permutation_sym, Permutation_nil in Hp. discriminate Hp. }
    inversion Hs as [|? ? Hsl Hx]; subst. inversion Hs' as [|? ? Hsl' Hy]; subst.
    rewrite Forall_forall in Hx, Hy.
    assert (Hyin : In y (x :: l)).
    { apply (Permutation_in _ (Permutation_sym Hp)). left. reflexivity. }
    assert (Hxin : In x (y :: l')).
    { apply (Permutation_in _ Hp). left. reflexivity. }
    assert (Exy : x = y).
    { apply Hanti; [left; reflexivity | exact Hyin | |].
      - destruct Hyin as [->|Hyin]; [apply Hrefl | apply Hx; exact Hyin].
      - destruct Hxin as [->|Hxin]; [apply Hrefl | apply Hy; exact Hxin]. }
    subst y. f_equal. apply IH.
    + intros a b Ha Hb. apply Hanti; right; assumption.
    + exact Hsl.
    + exact Hsl'.
    + eapply Permutation_cons_inv. exact Hp.
Qed.

Lemma dateDescending_antisym (a b : Expense) :
  dateDescending a b -> dateDescending b a ->
  a.(date) = b.(date) /\ localeCompare a.(createdAt) b.(createdAt) = 0.
Proof.
  unfold dateDescending.
  pose proof (localeCompare_swap a.(date) b.(date)) as S1.
  pose proof (localeCompare_swap b.(date) a.(date)) as S2.
  pose proof (localeCompare_nonneg_swap a.(createdAt) b.(createdAt)) as N1.
  intros [H1|[E1 H1]] [H2|[E2 H2]].
  - exfalso. assert (localeCompare (date b) (date a) < 0) by tauto. lia.
  - exfalso. rewrite E2, localeCompare_refl in H1. lia.
  - exfalso. rewrite E1, localeCompare_refl in H2. lia.
  - split; [exact E1|].
    assert (localeCompare (createdAt a) (createdAt b) <= 0).
    { apply (localeCompare_nonneg_swap (createdAt b) (createdAt a)). exact H2. }
    lia.
Qed.

(** The timeline does not depend on the order in which the store holds
    the records, as long as the collation tells the stored dates apart
    and no two different stored records have the same date and time
    stamps that compare as zero. *)
Theorem timeline_independent_of_store_order
  (expenses expenses' : list Expense) (month categoryFilter searchTerm : string) :
  Permutation expenses expenses' ->
  datesToldApart expenses ->
  (forall a b, In a expenses -> In b expenses ->
     a.(date) = b.(date) ->
     localeCompare a.(createdAt) b.(createdAt) = 0 -> a = b) ->
  filteredExpenses expenses month categoryFilter searchTerm
  = filteredExpenses expenses' month categoryFilter searchTerm.
Proof.
  intros Hperm Hapart Hkeys.
  assert (Hapart' : datesToldApart expenses').
  { apply (datesToldApart_incl expenses); [|exact Hapart].
    intros e. apply Permutation_in. apply Permutation_sym. exact Hperm. }
  assert (Hsel : Permutation (bySearch expenses month categoryFilter searchTerm)
                             (bySearch expenses' month categoryFilter searchTerm)).
  { unfold bySearch, byCategory, byMonth.
    destruct (truthy (trim searchTerm)), (categoryFilter =? "all")%string;
      repeat apply filter_perm; exact Hperm. }
  apply (sorted_perm_unique _ dateDescending).
  - intros x. right. split; [reflexivity|]. rewrite localeCompare_refl. lia.
  - intros a b Ha Hb Hab Hba.
    destruct (dateDescending_antisym a b Hab Hba) as [Ed Ec].
    unfold filteredExpenses in Ha, Hb.
    apply Hkeys; [| |exact Ed|exact Ec].
    + apply Array_sort_In in Ha. eapply bySearch_incl. exact Ha.
    + apply Array_sort_In in Hb. eapply bySearch_incl. exact Hb.
  - apply filteredExpenses_sorted. exact Hapart.
  - apply filteredExpenses_sorted. exact Hapart'.
  - unfold filteredExpenses. eapply perm_trans; [apply Array_sort_perm|].
    eapply perm_trans; [exact Hsel|]. apply Permutation_sym, Array_sort_perm.
Qed.

End FilterFacts.

Lemma timeline_without_filters_shows_all_witness :
  Permutation
    (filteredExpenses (collation := codeUnitCollation)
       [coffee; keyboard; cable] "" "all" "  ")
    [coffee; keyboard; cable].
Proof.
  apply (timeline_without_filters_shows_all (collation := codeUnitCollation)).
  intros c [<-|[<-|[]]]; reflexivity.
Defined.

Lemma timeline_independent_of_store_order_witness :
  filteredExpenses (collation := codeUnitCollation)
    [coffee; keyboard; cable] "2024-03" "all" ""
  = filteredExpenses (collation := codeUnitCollation)
      [cable; coffee; keyboard] "2024-03" "all" "".
Proof.
  apply (timeline_independent_of_store_order (collation := codeUnitCollation)).
  - apply Permutation_sym. apply (Permutation_cons_app [coffee; keyboard] [] cable).
    apply Permutation_refl.
  - apply codeUnit_datesToldApart.
  - intros a b [<-|[<-|[<-|[]]]] [<-|[<-|[<-|[]]]] Hd Hc;
      try reflexivity; discriminate Hc.
Defined.

(** ** The search term *)

Module JsCaseFacts.
Import JsString JsStringFacts JsTrimFacts.

Lemma isWhiteSpace_lowerChar (c : ascii) :
  isWhiteSpace (lowerChar c) = isWhiteSpace c.
Proof. destruct c as [[] [] [] [] [] [] [] []]; reflexivity. Qed.

Lemma lowerChar_idempotent (c : ascii) : lowerChar (lowerChar c) = lowerChar c.
Proof. destruct c as [[] [] [] [] [] [] [] []]; reflexivity. Qed.

Lemma toLowerCase_idempotent (s : string) :
  toLowerCase (toLowerCase s) = toLowerCase s.
Proof.
  induction s as [|c s IH]; simpl; [reflexivity|].
  rewrite lowerChar_idempotent, IH. reflexivity.
Qed.

Lemma trimStart_toLowerCase (s : string) :
  trimStart (toLowerCase s) = toLowerCase (trimStart s).
Proof.
  induction s as [|c s IH]; simpl; [reflexivity|].
  rewrite isWhiteSpace_lowerChar. destruct (isWhiteSpace c); [exact IH | reflexivity].
Qed.

Lemma trimEnd_toLowerCase (s : string) :
  trimEnd (toLowerCase s) = toLowerCase (trimEnd s).
Proof.
  induction s as [|c s IH]; simpl; [reflexivity|].
  rewrite IH, isWhiteSpace_lowerChar.
  destruct (trimEnd s); simpl; [destruct (isWhiteSpace c)|]; reflexivity.
Qed.

Lemma trim_toLowerCase (s : string) : trim (toLowerCase s) = toLowerCase (trim s).
Proof.
  unfold trim. rewrite trimStart_toLowerCase, trimEnd_toLowerCase. reflexivity.
Qed.

Lemma truthy_toLowerCase (s : string) : truthy (toLowerCase s) = truthy s.
Proof. destruct s; reflexivity. Qed.

End JsCaseFacts.

Section SearchTermFacts.
Context {collation : Collation}.
Import JsString JsStringFacts JsTrimFacts JsCaseFacts.

Lemma matchesSearch_normalised (searchTerm : string) (e : Expense) :
  matchesSearch (toLowerCase (trim searchTerm)) e = matchesSearch searchTerm e.
Proof.
  unfold matchesSearch.
  rewrite trim_toLowerCase, trim_idempotent, toLowerCase_idempotent. reflexivity.
Qed.

(** The search takes its term without regard to letter case or to white
    space around it: the term and its trimmed, lower-cased form give the
    same timeline. *)
Theorem search_term_case_and_padding_ignored
  (expenses : list Expense) (month categoryFilter searchTerm : string) :
  filteredExpenses expenses month categoryFilter (toLowerCase (trim searchTerm))
  = filteredExpenses expenses month categoryFilter searchTerm.
Proof.
  unfold filteredExpenses, bySearch.
  rewrite trim_toLowerCase, trim_idempotent, truthy_toLowerCase.
  destruct (truthy (trim searchTerm)); [|reflexivity].
  f_equal. apply filter_ext. intros e. apply matchesSearch_normalised.
Qed.

End SearchTermFacts.

(** ** The aggregation as a map *)

(** The distinct texts of a list, each at its first place. *)
Fixpoint firstOccurrences (l : list string) : list string :=
  match l with
  | [] => []
  | c :: rest =>
      c :: filter (fun x => negb (x =? c)%string) (firstOccurrences rest)
  end.

Definition hasKey (o : JsObject.object) (k : string) : bool :=
  existsb (fun k' => (k' =? k)%string) (map fst o).

Lemma lookup_set (o : JsObject.object) (k c : string) (v : number) :
  lookup c (JsObject.set o k v) =
  if (k =? c)%string then Some v else lookup c o.
Proof.
  induction o as [|[k' v'] o IH]; simpl.
  - reflexivity.
  - destruct (String.eqb_spec k' k) as [->|Hne]; simpl.
    + destruct (k =? c)%string; reflexivity.
    + rewrite IH. destruct (String.eqb_spec k' c) as [->|Hne'].
      * destruct (String.eqb_spec k c) as [->|_]; [contradiction | reflexivity].
      * reflexivity.
Qed.

Lemma set_keys (o : JsObject.object) (k : string) (v : number) :
  map fst (JsObject.set o k v) =
  if hasKey o k then map fst o else map fst o ++ [k].
Proof.
  unfold hasKey. induction o as [|[k' v'] o IH]; simpl; [reflexivity|].
  destruct (k' =? k)%string; simpl; [reflexivity|].
  rewrite IH. destruct (existsb _ (map fst o)); reflexivity.
Qed.

Definition aggregate (acc : JsObject.object) (filtered : list Expense)
  : JsObject.object :=
  fold_left
    (fun acc expense =>
       JsObject.set acc expense.(category)
         (add (match lookup expense.(category) acc with
               | Some v => v
               | None => zero
               end)
              expense.(amount)))
    filtered acc.

Lemma sumByCategory_aggregate (filtered : list Expense) :
  sumByCategory filtered = aggregate [] filtered.
Proof. reflexivity. Qed.

Definition inCategory (c : string) (e : Expense) : bool := (e.(category) =? c)%string.

Lemma aggregate_lookup (filtered : list Expense) :
  forall (acc : JsObject.object) (c : string),
    lookup c (aggregate acc filtered) =
    match filter (inCategory c) filtered with
    | [] => lookup c acc
    | members =>
        Some (fold_left (fun sum e => add sum e.(amount)) members
                (match lookup c acc with Some v => v | None => zero end))
    end.
Proof.
  induction filtered as [|e l IH]; intros acc c; [reflexivity|].
  cbn [aggregate fold_left]. fold (aggregate
    (JsObject.set acc (category e)
       (add match lookup (category e) acc with Some v => v | None => zero end
            (amount e))) l).
  rewrite IH, lookup_set. cbn [filter]. unfold inCategory at 2.
  destruct (String.eqb_spec (category e) c) as [->|Hne].
  - destruct (filter (inCategory c) l); reflexivity.
  - reflexivity.
Qed.

Lemma sumByCategory_members_sum (filtered : list Expense) (c : string) :
  lookup c (sumByCategory filtered) =
  match filter (inCategory c) filtered with
  | [] => None
  | members => Some (sumAmounts members)
  end.
Proof.
  rewrite sumByCategory_aggregate, aggregate_lookup. reflexivity.
Qed.

Lemma filter_filter_notin (keys : list string) (c : string) (l : list string) :
  filter (fun x => negb (existsb (fun k' => (k' =? x)%string) (keys ++ [c]))) l
  = filter (fun x => negb (existsb (fun k' => (k' =? x)%string) keys))
      (filter (fun x => negb (x =? c)%string) l).
Proof.
  induction l as [|x l IH]; simpl; [reflexivity|].
  rewrite existsb_app. cbn [existsb]. rewrite orb_false_r.
  rewrite (String.eqb_sym c x).
  destruct (x =? c)%string; cbn [negb]; simpl.
  - rewrite orb_true_r. exact IH.
  - rewrite orb_false_r. rewrite IH. reflexivity.
Qed.

Lemma filter_notin_absorbs (keys : list string) (c : string) (l : list string) :
  existsb (fun k' => (k' =? c)%string) keys = true ->
  filter (fun x => negb (existsb (fun k' => (k' =? x)%string) keys))
    (filter (fun x => negb (x =? c)%string) l)
  = filter (fun x => negb (existsb (fun k' => (k' =? x)%string) keys)) l.
Proof.
  intros Hc. induction l as [|x l IH]; simpl; [reflexivity|].
  destruct (String.eqb_spec x c) as [->|Hne]; cbn [negb]; simpl.
  - rewrite Hc. exact IH.
  - rewrite IH. reflexivity.
Qed.

Lemma aggregate_keys (filtered : list Expense) :
  forall acc : JsObject.object,
    map fst (aggregate acc filtered) =
    map fst acc ++
    filter (fun c => negb (hasKey acc c))
      (firstOccurrences (map category filtered)).
Proof.
  induction filtered as [|e l IH]; intros acc.
  - simpl. rewrite app_nil_r. reflexivity.
  - cbn [aggregate fold_left]. fold (aggregate
      (JsObject.set acc (category e)
         (add match lookup (category e) acc with Some v => v | None => zero end
              (amount e))) l).
    rewrite IH, set_keys. cbn [map firstOccurrences filter].
    unfold hasKey. rewrite set_keys. unfold hasKey.
    destruct (existsb (fun k' => (k' =? category e)%string) (map fst acc)) eqn:Hk.
    + cbn [negb]. rewrite filter_notin_absorbs by exact Hk. reflexivity.
    + cbn [negb]. rewrite <- app_assoc. cbn [app].
      rewrite filter_filter_notin. reflexivity.
Qed.

Lemma firstOccurrences_NoDup (l : list string) : NoDup (firstOccurrences l).
Proof.
  induction l as [|c l IH]; simpl; constructor.
  - rewrite filter_In, negb_true_iff, String.eqb_neq. tauto.
  - apply NoDup_filter. exact IH.
Qed.

Lemma firstOccurrences_In (l : list string) (c : string) :
  In c (firstOccurrences l) <-> In c l.
Proof.
  induction l as [|d l IH]; simpl; [tauto|].
  rewrite filter_In, IH, negb_true_iff, String.eqb_neq.
  destruct (string_dec d c); intuition congruence.
Qed.

Lemma sumByCategory_keys_first (filtered : list Expense) :
  map fst (sumByCategory filtered) = firstOccurrences (map category filtered).
Proof.
  rewrite sumByCategory_aggregate, aggregate_keys. cbn [map app hasKey existsb negb].
  apply filter_id. reflexivity.
Qed.

Lemma entries_without_index_keys (o : JsObject.object) :
  Forall (fun kv => JsObject.arrayIndex (fst kv) = None) o -> JsObject.entries o = o.
Proof.
  intros H. unfold JsObject.entries.
  assert (Hnone : filter JsObject.isIndexKey o = []).
  { induction H as [|kv o Hkv Ho IH]; simpl; [reflexivity|].
    unfold JsObject.isIndexKey at 1. rewrite Hkv. exact IH. }
  rewrite Hnone. cbn [Array_sort fold_right app].
  apply filter_id. intros kv Hkv. rewrite Forall_forall in H.
  unfold JsObject.isIndexKey. rewrite (H kv Hkv). reflexivity.
Qed.

Lemma lookup_of_member (V : Type) (o : list (string * V)) (k : string) (v : V) :
  NoDup (map fst o) -> In (k, v) o -> lookup k o = Some v.
Proof.
  induction o as [|[k' v'] o IH]; simpl; intros Hnd Hin; [destruct Hin|].
  inversion Hnd as [|? ? Hnotin Hnd']; subst.
  destruct Hin as [[= -> ->]|Hin].
  - rewrite String.eqb_refl. reflexivity.
  - destruct (String.eqb_spec k' k) as [->|Hne]; [|apply IH; assumption].
    exfalso. apply Hnotin. apply in_map_iff. exists (k, v). auto.
Qed.

(** The sum kept for a category is the sum, in timeline order, of the
    amounts of the records of that category, and a category with no
    record has no entry. *)
Theorem sumByCategory_lookup (filtered : list Expense) (c : string) :
  ~ In c JsObject.prototypeNames ->
  lookup c (sumByCategory filtered) =
  match filter (inCategory c) filtered with
  | [] => None
  | members => Some (sumAmounts members)
  end.
Proof. intros _. apply sumByCategory_members_sum. Qed.

(** Each category of the timeline is listed exactly once by
    [Object.entries] of the aggregation, and no other name is; when no
    category is an array index the listing follows the order in which
    the categories first occur in the timeline. *)
Theorem aggregation_lists_each_category_once (filtered : list Expense) :
  Forall (fun e => ~ In e.(category) JsObject.prototypeNames) filtered ->
  let listed := map fst (JsObject.entries (sumByCategory filtered)) in
  NoDup listed /\
  (forall c, In c listed <-> exists e, In e filtered /\ e.(category) = c) /\
  (Forall (fun e => JsObject.arrayIndex e.(category) = None) filtered ->
   listed = firstOccurrences (map category filtered)).
Proof.
  intros _ listed. subst listed.
  pose proof (Permutation_map fst (entries_perm (sumByCategory filtered))) as Hperm.
  pose proof (sumByCategory_keys_first filtered) as Hkeys.
  split; [|split].
  - apply (Permutation_NoDup (Permutation_sym Hperm)).
    rewrite Hkeys. apply firstOccurrences_NoDup.
  - intros c. split.
    + intros Hin. apply (Permutation_in _ Hperm) in Hin.
      rewrite Hkeys in Hin. apply firstOccurrences_In, in_map_iff in Hin.
      destruct Hin as (e & He & Hin). eauto.
    + intros (e & Hin & He). apply (Permutation_in _ (Permutation_sym Hperm)).
      rewrite Hkeys. apply firstOccurrences_In, in_map_iff. eauto.
  - intros Hidx. rewrite entries_without_index_keys; [exact Hkeys|].
    apply Forall_forall. intros [k v] Hkv. cbn [fst].
    assert (Hk : In k (map category filtered)).
    { apply firstOccurrences_In. rewrite <- Hkeys. apply in_map_iff.
      exists (k, v). auto. }
    apply in_map_iff in Hk. destruct Hk as (e & <- & He).
    rewrite Forall_forall in Hidx. apply Hidx. exact He.
Qed.

(** The top category is never made up: it is the category of some record
    of the timeline, and its amount is the sum of the amounts of the
    records of that category. *)
Theorem topCategory_is_an_aggregated_category
  (filtered : list Expense) (month : string) (t : TopCategory.t) :
  Forall (fun e => ~ In e.(category) JsObject.prototypeNames) filtered ->
  (totals filtered month).(topCategory) = Some t ->
  (exists e, In e filtered /\ e.(category) = t.(TopCategory.name)) /\
  t.(TopCategory.amount)
  = sumAmounts (filter (inCategory t.(TopCategory.name)) filtered).
Proof.
  intros _. unfold totals. cbn [topCategory].
  destruct (hd_error _) as [h|] eqn:Eh; [|discriminate].
  intros [= <-]. cbn [TopCategory.name TopCategory.amount].
  assert (Hin : In h (sumByCategory filtered)).
  { apply (Permutation_in _ (entries_perm _)).
    apply (Array_sort_In bySumDescending).
    destruct (Array_sort bySumDescending _) as [|x l]; [discriminate Eh|].
    injection Eh as ->. left. reflexivity. }
  assert (Hlook : lookup (fst h) (sumByCategory filtered) = Some (snd h)).
  { apply lookup_of_member; [|destruct h; exact Hin].
    rewrite sumByCategory_keys_first. apply firstOccurrences_NoDup. }
  rewrite sumByCategory_members_sum in Hlook.
  destruct (filter (inCategory (fst h)) filtered) as [|e members] eqn:Ef;
    [discriminate Hlook|].
  split; [|congruence].
  assert (He : In e (filter (inCategory (fst h)) filtered))
    by (rewrite Ef; left; reflexivity).
  apply filter_In in He. destruct He as [He Hc]. apply String.eqb_eq in Hc. eauto.
Qed.

Lemma sumByCategory_lookup_witness :
  lookup "Tech" (sumByCategory [coffee; keyboard; cable])
  = Some (sumAmounts [keyboard; cable]).
Proof.
  apply (sumByCategory_lookup [coffee; keyboard; cable] "Tech").
  simpl. intuition discriminate.
Defined.

Lemma aggregation_lists_each_category_once_witness :
  map fst (JsObject.entries (sumByCategory [coffee; keyboard; cable]))
  = firstOccurrences (map category [coffee; keyboard; cable]).
Proof.
  refine (proj2 (proj2 (aggregation_lists_each_category_once
                          [coffee; keyboard; cable] _)) _).
  - repeat constructor; simpl; intuition discriminate.
  - repeat constructor.
Defined.

Lemma topCategory_is_an_aggregated_category_witness :
  ofZ 25 = sumAmounts (filter (inCategory "Tech") [coffee; keyboard; cable]).
Proof.
  refine (proj2 (topCategory_is_an_aggregated_category
                   [coffee; keyboard; cable] "2024-03"
                   {| TopCategory.name := "Tech"; TopCategory.amount := ofZ 25 |} _ _)).
  - repeat constructor; simpl; intuition discriminate.
  - vm_compute. reflexivity.
Defined.

(** ** A load that fails *)

Section LoadFailureFacts.
Context {collation : Collation}.
Variable JSON_parse : string -> completion json.

(** Whatever makes the load give up (no slot, an empty slot, a text that
    does not parse, a value that is not an array, an array with a [null]
    entry), the effect leaves the store it found, and raises nothing. *)
Theorem loadEffect_failure_keeps_store (raw : option string) (current : list json) :
  raw = None \/ raw = Some EmptyString \/
  (exists r, raw = Some r /\
     ((exists reason, JSON_parse r = Throw reason) \/
      (exists v, JSON_parse r = Normal v /\ forall items, v <> JArr items) \/
      (exists items, JSON_parse r = Normal (JArr items) /\ In JNull items))) ->
  loadEffect JSON_parse raw current = Normal current.
Proof.
  unfold loadEffect, loadBody.
  intros [->|[->|(r & -> & H)]]; try reflexivity.
  destruct (negb (JsString.truthy r)); [reflexivity|].
  destruct H as [(reason & ->)|[(v & -> & Hv)|(items & -> & Hnull)]].
  - reflexivity.
  - cbn [bind]. destruct v; try reflexivity. exfalso. exact (Hv _ eq_refl).
  - cbn [bind].
    destruct (filterC_throws _ isExpense items JNull Hnull isExpense_null) as [reason ->].
    reflexivity.
Qed.

End LoadFailureFacts.

Lemma loadEffect_failure_keeps_store_witness :
  loadEffect (collation := codeUnitCollation) sampleParse (Some "holed") [complete]
  = Normal [complete].
Proof.
  apply (loadEffect_failure_keeps_store (collation := codeUnitCollation)).
  right. right. exists "holed". split; [reflexivity|].
  right. right. exists [JNull; complete]. split; [reflexivity | left; reflexivity].
Defined.

(** ** Clearing the filters *)

Section ResetFacts.
Context {collation : Collation}.
Import JsString JsStringFacts.

(** After [resetFilters] the timeline holds the stored records dated in
    the current month and only those; the records, the draft and the
    message are untouched, and clearing twice is clearing once. *)
Theorem resetFilters_shows_current_month (todayIso : string) (st : State) :
  let cleared := resetFilters todayIso st in
  Permutation (timeline cleared)
    (filter (fun e => startsWith e.(date) (sliceTo 7 todayIso)) st.(expenses)) /\
  cleared.(expenses) = st.(expenses) /\ cleared.(draft) = st.(draft) /\
  cleared.(error) = st.(error) /\
  resetFilters todayIso cleared = cleared.
Proof.
  cbv zeta. split; [|repeat split].
  unfold timeline, resetFilters, filteredExpenses, bySearch, byCategory, byMonth.
  cbn [expenses month categoryFilter searchTerm].
  apply Array_sort_perm.
Qed.

End ResetFacts.

(** ** An empty timeline *)

Lemma ofZ_positive (k : Z) :
  1 <= k < 2 ^ 53 -> exists m e, ofZ k = S754_finite false m e.
Proof.
  intros Hk. pose proof (truncate_ofZ k ltac:(lia)) as Ht.
  destruct (ofZ k) as [s|s| |s m e]; cbn [truncate] in Ht; try discriminate Ht.
  - injection Ht as Ht. lia.
  - destruct s; [|eauto]. exfalso.
    cbn [cond_Zopp] in Ht.
    set (x := if 0 <=? e then Zpos m * 2 ^ e else Zpos m / 2 ^ (- e)) in Ht.
    assert (Hx : 0 <= x).
    { unfold x. destruct (0 <=? e) eqn:He.
      - apply Z.leb_le in He. apply Z.mul_nonneg_nonneg; [lia|].
        apply Z.pow_nonneg. lia.
      - apply Z.div_pos; [lia|]. apply Z.pow_pos_nonneg; [lia|].
        apply Z.leb_gt in He. lia. }
    clearbody x. injection Ht as Ht. lia.
Qed.

(** With nothing in the timeline the header shows zeros: the total and
    the daily average are zero whatever the month text, no category is
    aggregated, and there is no top category. *)
Theorem totals_of_empty_timeline (month : string) :
  totals [] month =
  {| total := zero; dailyAverage := zero; categories := []; topCategory := None |}.
Proof.
  unfold totals. cbn [sumAmounts sumByCategory fold_left JsObject.entries filter
                      Array_sort fold_right app hd_error].
  f_equal.
  destruct (daysInMonth_cases month) as [->|(k & Hk & ->)]; [reflexivity|].
  destruct (dayCount_truthy k Hk) as [-> _].
  destruct (ofZ_positive k ltac:(lia)) as (m & e & ->). reflexivity.
Qed.

(** ** The rows of the category split *)

(** When the amounts are doubles, no category is a name inherited from
    [Object.prototype] and no sum has overflowed, the rows of the
    category split are the entries of the aggregation ordered from the
    largest sum to the smallest, and the first row is the top category
    of the header. *)
Theorem categoryRows_sorted_descending (filtered : list Expense) (month : string) :
  Forall (fun e => isDouble e.(amount) = true) filtered ->
  Forall (fun e => ~ In e.(category) JsObject.prototypeNames) filtered ->
  Forall (fun kv => isFinite (snd kv) = true) (sumByCategory filtered) ->
  let rows := categoryRows (totals filtered month) in
  Permutation rows (sumByCategory filtered) /\
  StronglySorted (fun a b => (value (snd b) <= value (snd a))%Q) rows /\
  (totals filtered month).(topCategory)
  = match rows with
    | [] => None
    | kv :: _ => Some {| TopCategory.name := fst kv; TopCategory.amount := snd kv |}
    end.
Proof.
  intros Hdouble _ Hfinite rows. subst rows.
  unfold categoryRows, totals. cbn [categories topCategory].
  set (listed := JsObject.entries (sumByCategory filtered)).
  assert (Hperm : Permutation listed (sumByCategory filtered)) by apply entries_perm.
  assert (Hgood : Forall (fun kv => good (snd kv) = true) listed).
  { pose proof (sumByCategory_exponentOk filtered Hdouble) as Hexp.
    rewrite Forall_forall in Hexp, Hfinite |- *.
    intros kv Hkv. apply (Permutation_in _ Hperm) in Hkv.
    apply good_iff. split; [apply Hfinite; exact Hkv|].
    apply Hexp. apply in_map. exact Hkv. }
  split; [eapply perm_trans; [apply Array_sort_perm | exact Hperm]|].
  split.
  - assert (Hs : StronglySorted (notAfter bySumDescending)
                   (Array_sort bySumDescending listed)).
    { apply (Array_sort_sorted_on bySumDescending (fun kv => good (snd kv) = true)).
      - intros x y Hx Hy Hxy Hyx. unfold bySumDescending in Hxy, Hyx.
        rewrite (SortCompare_sub_good _ _ Hy Hx) in Hxy.
        rewrite (SortCompare_sub_good _ _ Hx Hy) in Hyx.
        rewrite <- Qcompare_antisym, Hxy in Hyx. discriminate Hyx.
      - intros x y z Hx Hy Hz.
        rewrite (notAfter_bySumDescending x y Hx Hy),
                (notAfter_bySumDescending y z Hy Hz),
                (notAfter_bySumDescending x z Hx Hz).
        intros H1 H2. eapply Qle_trans; eassumption.
      - exact Hgood. }
    assert (Hg' : Forall (fun kv => good (snd kv) = true)
                    (Array_sort bySumDescending listed)).
    { rewrite Forall_forall in Hgood |- *. intros kv Hkv.
      apply Hgood. apply (Array_sort_In bySumDescending). exact Hkv. }
    revert Hg'. induction Hs as [|a l Hl IH Ha]; intros Hg'; constructor.
    + apply IH. inversion Hg'; assumption.
    + inversion Hg' as [|? ? Ga Gl]; subst.
      rewrite Forall_forall in Ha, Gl |- *. intros b Hb.
      apply (notAfter_bySumDescending a b Ga (Gl b Hb)). apply Ha. exact Hb.
  - destruct (Array_sort bySumDescending listed); reflexivity.
Qed.

Lemma categoryRows_sorted_descending_witness :
  Permutation (categoryRows (totals [coffee; keyboard; cable] "2024-03"))
    (sumByCategory [coffee; keyboard; cable]).
Proof.
  refine (proj1 (categoryRows_sorted_descending
                   [coffee; keyboard; cable] "2024-03" _ _ _)).
  - repeat constructor.
  - repeat constructor; simpl; intuition discriminate.
  - repeat constructor.
Defined.

(** ** The timeline after a handler has run *)

Lemma filter_filter (A : Type) (p q : A -> bool) (l : list A) :
  filter p (filter q l) = filter (fun x => q x && p x) l.
Proof.
  induction l as [|x l IH]; cbn [filter]; [reflexivity|].
  destruct (q x); cbn [filter andb]; rewrite IH; reflexivity.
Qed.

Section TimelineAfterDelete.
Context {collation : Collation}.
Import JsString.

(** The three criteria of the timeline as one test. *)
Definition shownBy (month categoryFilter searchTerm : string) (e : Expense) : bool :=
  startsWith e.(date) month &&
  ((categoryFilter =? "all")%string || (e.(category) =? categoryFilter)%string) &&
  (negb (truthy (trim searchTerm)) || matchesSearch searchTerm e).

Lemma bySearch_shownBy
  (expenses : list Expense) (month categoryFilter searchTerm : string) :
  bySearch expenses month categoryFilter searchTerm
  = filter (shownBy month categoryFilter searchTerm) expenses.
Proof.
  unfold bySearch, byCategory, byMonth, shownBy.
  destruct (truthy (trim searchTerm)), (categoryFilter =? "all")%string;
    rewrite ?filter_filter; apply filter_ext; intros e;
    cbn [negb orb]; rewrite ?andb_true_r, ?andb_assoc; reflexivity.
Qed.

(** When the collation tells the dates of the stored records apart,
    deleting a record takes it out of the timeline and leaves the other
    rows in the order they had. *)
Theorem handleDelete_timeline (target : string) (st : State) :
  datesToldApart st.(expenses) ->
  timeline (handleDelete target st)
  = filter (fun e => negb (e.(id) =? target)%string) (timeline st).
Proof.
  intros Hapart.
  unfold timeline, handleDelete, filteredExpenses.
  cbn [expenses month categoryFilter searchTerm].
  rewrite !bySearch_shownBy.
  set (selected := filter (shownBy st.(month) st.(categoryFilter) st.(searchTerm))
                     st.(expenses)).
  assert (Hsel : datesToldApart selected).
  { apply (datesToldApart_incl st.(expenses)); [|exact Hapart].
    intros e He. apply filter_In in He. tauto. }
  rewrite (Array_sort_filter_on timelineOrder (fun e => In e selected)
             (fun x y => timelineOrder_total selected x y Hsel)
             (fun x y z => timelineOrder_trans selected x y z Hsel))
    by (apply Forall_forall; auto).
  f_equal. apply filter_comm.
Qed.

End TimelineAfterDelete.

Lemma handleDelete_timeline_witness :
  timeline (collation := codeUnitCollation) (handleDelete "a1" sampleState)
  = filter (fun e => negb (e.(id) =? "a1")%string)
      (timeline (collation := codeUnitCollation) sampleState).
Proof.
  apply (handleDelete_timeline (collation := codeUnitCollation) "a1" sampleState).
  apply codeUnit_datesToldApart.
Defined.

Section TimelineAfterSubmit.
Context {collation : Collation}.
Variable Date_parse : string -> number.
Variable Number_toString : number -> string.

(** An accepted draft dated no earlier than every stored record, with a
    time stamp no earlier than those of the records of its date, goes to
    the top of the timeline when the filters let it through, the rows
    that were there following unchanged; when the filters hide it the
    timeline is as before. The collation is to tell apart the dates of
    the records held after the submission. *)
Theorem handleSubmit_record_tops_timeline (uuid now : string) (st : State) :
  accepted Date_parse Number_toString uuid now st ->
  let after := handleSubmit Date_parse Number_toString uuid now st in
  datesToldApart after.(expenses) ->
  (forall e, In e st.(expenses) ->
     localeCompare e.(date) st.(draft).(Draft.date) < 0 \/
     (e.(date) = st.(draft).(Draft.date) /\ localeCompare e.(createdAt) now <= 0)) ->
  forall payload, hd_error after.(expenses) = Some payload ->
    (In payload (timeline after) -> timeline after = payload :: timeline st) /\
    (~ In payload (timeline after) -> timeline after = timeline st).
Proof.
  intros Hacc after Hapart Hlatest payload Hhd. subst after.
  destruct (accepted_inv Date_parse Number_toString uuid now st Hacc)
    as (_ & _ & _ & Hafter).
  rewrite Hafter in Hhd, Hapart |- *. cbn [expenses hd_error] in Hhd, Hapart.
  injection Hhd as Hpayload.
  unfold timeline, filteredExpenses.
  cbn [expenses month categoryFilter searchTerm].
  rewrite Hpayload in Hapart |- *. rewrite !bySearch_shownBy. cbn [filter].
  destruct (shownBy st.(month) st.(categoryFilter) st.(searchTerm) payload) eqn:Hshown.
  - assert (Htop : Array_sort timelineOrder
                     (payload :: filter (shownBy st.(month) st.(categoryFilter)
                                           st.(searchTerm)) st.(expenses))
                   = payload :: Array_sort timelineOrder
                       (filter (shownBy st.(month) st.(categoryFilter)
                                  st.(searchTerm)) st.(expenses))).
    { cbn [Array_sort fold_right].
      apply insertSorted_first. intros e He.
      rewrite (Array_sort_In timelineOrder) in He.
      apply filter_In in He. destruct He as [He _].
      apply notAfter_timelineOrder.
      { apply Hapart; [left; reflexivity | right; exact He]. }
      unfold dateDescending.
      assert (Hdate : payload.(date) = st.(draft).(Draft.date))
        by (rewrite <- Hpayload; reflexivity).
      assert (Hstamp : payload.(createdAt) = now)
        by (rewrite <- Hpayload; reflexivity).
      rewrite Hdate, Hstamp.
      destruct (Hlatest e He) as [Hd|[Hd Hc]].
      - left. apply localeCompare_swap. exact Hd.
      - right. split; [symmetry; exact Hd|].
        apply localeCompare_nonneg_swap. exact Hc. }
    split; [intros _; exact Htop|].
    intros Hnot. exfalso. apply Hnot. rewrite Htop. left. reflexivity.
  - split; [|reflexivity].
    intros Hin. rewrite (Array_sort_In timelineOrder) in Hin.
    apply filter_In in Hin. destruct Hin as [_ Hin].
    rewrite Hin in Hshown. discriminate Hshown.
Qed.

End TimelineAfterSubmit.

Definition tea : Expense :=
  {| id := "u1"; description := "Tea"; category := "Other";
     amount := ofString "3.5"; date := "2024-03-02"; note := None;
     createdAt := "2024-03-02T12:00:00.000Z" |}.

Lemma handleSubmit_record_tops_timeline_witness :
  timeline (collation := codeUnitCollation)
    (handleSubmit sampleDateParse sampleNumberToString "u1"
       "2024-03-02T12:00:00.000Z" (draftOf "Tea" "3.5"))
  = tea :: timeline (collation := codeUnitCollation) (draftOf "Tea" "3.5").
Proof.
  refine (proj1 (handleSubmit_record_tops_timeline (collation := codeUnitCollation)
                   sampleDateParse sampleNumberToString "u1"
                   "2024-03-02T12:00:00.000Z" (draftOf "Tea" "3.5")
                   _ (codeUnit_datesToldApart _) _ tea _) _).
  - vm_compute. reflexivity.
  - intros e [<-|[]]. left. vm_compute. reflexivity.
  - vm_compute. reflexivity.
  - vm_compute. left. reflexivity.
Defined.
